(** * Py2D field of view: [py2d/FOV.py]

    A shallow embedding of the [Vision] class of [py2d/FOV.py] and the
    properties of its visibility computation.

    Conventions of the embedding.
    - Coordinates and radii are values of a number type [N] that comes with the
      arithmetic and comparisons the Python code uses (class [PyNum]).  The
      structural results hold for every such type; results that need
      arithmetic say which laws they use ([PyNumOrder], [PyNumRing],
      [PyNumTotal]); binary floating point, which the Python code runs on,
      satisfies none of them in full (rounding, NaN, infinities), and where
      rounding decides a property the code is run on the primitive floats
      ([Float_PyNum]).
    - The module [Math] imported by [FOV.py] is not part of the sources.  What
      [FOV.py] calls from it is the record [MathModule]; a concrete model,
      written from the specification, is [SpecMath], run on exact rationals
      ([ExactMath]) and on binary64 floating point ([FloatMath]).
    - A Python call either returns, raises, or (in the embedding only) runs
      out of loop fuel: [PyResult].  Loops that mutate the list they walk are
      written with fuel and shown never to exhaust it. *)

From Stdlib Require Import QArith Qcanon ZArith List Lia Lqa Permutation Ring
  Sorted Floats.
From stdpp Require Import base decidable option list numbers.

Local Open Scope Z_scope.

(** ** Python results *)

Inductive PyExn := IndexError | ValueError | TypeError | NameError.

Inductive PyResult (A : Type) :=
  | Ok (a : A)
  | Raise (e : PyExn)
  | OutOfFuel.
Arguments Ok {A} a.
Arguments Raise {A} e.
Arguments OutOfFuel {A}.

#[global] Instance PyExn_eq_dec : EqDecision PyExn.
Proof. solve_decision. Defined.

#[global] Instance PyResult_eq_dec {A} `{EqDecision A} : EqDecision (PyResult A).
Proof. solve_decision. Defined.

#[global] Instance PyResult_ret : MRet PyResult := fun A a => Ok a.
#[global] Instance PyResult_bind : MBind PyResult := fun A B f m =>
  match m with
  | Ok a => f a
  | Raise e => Raise e
  | OutOfFuel => OutOfFuel
  end.

(** ** Python lists *)

Section PyList.
Context {A : Type} `{EqDecision A}.

(** [l[i]] with Python's negative indices. *)
Definition py_get (l : list A) (i : Z) : PyResult A :=
  let len := Z.of_nat (length l) in
  let j := if decide (i < 0) then i + len else i in
  if decide (0 <= j < len) then
    match l !! Z.to_nat j with
    | Some a => Ok a
    | None => Raise IndexError
    end
  else Raise IndexError.

(** [l.insert(i, a)]: the index is clamped to the list. *)
Definition py_insert (i : Z) (a : A) (l : list A) : list A :=
  let len := Z.of_nat (length l) in
  let j := if decide (i < 0) then Z.max 0 (i + len) else Z.min i len in
  take (Z.to_nat j) l ++ a :: drop (Z.to_nat j) l.

(** [l.remove(a)]: the first element equal to [a] goes. *)
Fixpoint remove_first (a : A) (l : list A) : option (list A) :=
  match l with
  | [] => None
  | b :: l' =>
      if decide (b = a) then Some l'
      else cons b <$> remove_first a l'
  end.

Definition py_remove (a : A) (l : list A) : PyResult (list A) :=
  match remove_first a l with
  | Some l' => Ok l'
  | None => Raise ValueError
  end.

(** [filter(f, l)] of Python 2: the list is built at once, and the first
    call of [f] that raises ends it. *)
Fixpoint py_filter (f : A -> PyResult bool) (l : list A)
    : PyResult (list A) :=
  match l with
  | [] => Ok []
  | a :: l' =>
      keep ← f a;
      rest ← py_filter f l';
      mret (if keep : bool then a :: rest else rest)
  end.

(** [reduce(lambda x,y: x+y, l)] guarded by the truth value of [l]. *)
Definition flatten_list (l : list (list A)) : list A :=
  match l with
  | [] => []
  | h :: t => foldl app h t
  end.

(** [zip(l, l[1:])] *)
Definition consecutive_pairs (l : list A) : list (A * A) := zip l (drop 1 l).
End PyList.

(** ** Numbers *)

Class PyNum (N : Type) := {
  num_eq_dec :: EqDecision N;
  nadd : N -> N -> N;
  nsub : N -> N -> N;
  nmul : N -> N -> N;
  nopp : N -> N;
  nabs : N -> N;
  nlt : N -> N -> bool;        (* a < b *)
  nle : N -> N -> bool;        (* a <= b *)
  n_zero : N;
  n_one : N;                   (* the literal 1 *)
  n_hundredth : N;             (* the literal 0.01 *)
}.

(** [a > b] is [b < a]. *)
Definition ngt {N} `{PyNum N} (a b : N) : bool := nlt b a.

(** The builtins [min(a, b)] and [max(a, b)]: the first argument wins ties. *)
Definition nmin {N} `{PyNum N} (a b : N) : N := if nlt b a then b else a.
Definition nmax {N} `{PyNum N} (a b : N) : N := if nlt a b then b else a.

(** Comparisons behave as on a total order. *)
Class PyNumOrder (N : Type) `{PyNum N} := {
  nlt_nle : forall a b : N, nlt a b = negb (nle b a);
  nle_refl : forall a : N, nle a a = true;
}.

(** The laws of exact arithmetic: a commutative ring in which squares are
    not negative.  Rounded arithmetic does not satisfy them; a result that
    assumes them is a result about the computation without rounding. *)
Class PyNumRing (N : Type) `{PyNum N} := {
  num_ring : ring_theory n_zero n_one nadd nmul nsub nopp (@eq N);
  nle_square : forall a : N, nle n_zero (nmul a a) = true;
}.

(** ** Vectors, segments, polygons *)

Record Vector (N : Type) := mkVector { vx : N; vy : N }.
Arguments mkVector {N} vx vy.
Arguments vx {N} v.
Arguments vy {N} v.

#[global] Instance Vector_eq_dec {N} `{EqDecision N} : EqDecision (Vector N).
Proof. solve_decision. Defined.

Definition Segment (N : Type) : Type := Vector N * Vector N.

Record Polygon (N : Type) := mkPolygon { points : list (Vector N) }.
Arguments mkPolygon {N} points.
Arguments points {N} p.

#[global] Instance Polygon_eq_dec {N} `{EqDecision N} : EqDecision (Polygon N).
Proof. solve_decision. Defined.

Section VectorOps.
Context {N : Type} `{PyNum N}.

(** Modelled from the spec: [Vector.__sub__], [Vector.__add__],
    [Vector.__mul__] by a number and [Vector.get_length_squared] of the
    absent [Math] module, the "2D point/vector arithmetic, squared-length"
    of the geometry primitives; componentwise. *)
Definition vsub (a b : Vector N) : Vector N :=
  mkVector (nsub (vx a) (vx b)) (nsub (vy a) (vy b)).
Definition vadd (a b : Vector N) : Vector N :=
  mkVector (nadd (vx a) (vx b)) (nadd (vy a) (vy b)).
Definition vscale (a : Vector N) (k : N) : Vector N :=
  mkVector (nmul (vx a) k) (nmul (vy a) k).
Definition get_length_squared (a : Vector N) : N :=
  nadd (nmul (vx a) (vx a)) (nmul (vy a) (vy a)).
End VectorOps.

(** What [FOV.py] uses of the absent module [Math], and of the builtin [set].
    These are the functions that [FOV.py] reaches through the module
    ([Math.intersect_poly_ray] and so on) or as methods of its objects.
    [distance_point_lineseg_squared] is not among them: line 104 calls it by
    its bare name, which nothing binds (see [lineseg_in_radius]). *)
Record MathModule (N : Type) `{PyNum N} := {
  check_intersect_lineseg_lineseg :
    Vector N -> Vector N -> Vector N -> Vector N -> bool;
  intersect_linesegs_linesegs :
    list (Segment N) -> list (Segment N) -> list (Vector N);
  intersect_linesegs_ray :
    list (Segment N) -> Vector N -> Vector N -> list (Vector N);
  intersect_poly_ray :
    list (Vector N) -> Vector N -> Vector N -> list (Vector N);
  (* [Polygon.sort_around], as a function of the polygon's points *)
  sort_around : Vector N -> list (Vector N) -> list (Vector N);
  (* [Vector.normalize] *)
  normalize : Vector N -> Vector N;
  (* the elements of [set(l)] in iteration order *)
  set_iter : list (Vector N) -> list (Vector N);
  set_iter_NoDup : forall l, NoDup (set_iter l);
  set_iter_elem : forall l p, p ∈ set_iter l <-> p ∈ l;
}.
Arguments check_intersect_lineseg_lineseg {N _} m.
Arguments intersect_linesegs_linesegs {N _} m.
Arguments intersect_linesegs_ray {N _} m.
Arguments intersect_poly_ray {N _} m.
Arguments sort_around {N _} m.
Arguments normalize {N _} m.
Arguments set_iter {N _} m.
Arguments set_iter_NoDup {N _} m.
Arguments set_iter_elem {N _} m.

(** ** The [Vision] object *)

Record Vision (N : Type) := mkVision {
  obs_points : list (Vector N);
  obs_segs : list (Segment N);
  cached_vision : option (Polygon N);
  cached_position : option (Vector N);
  cached_radius : option N;
  debug : bool;
  debug_points : list (Vector N * Z);
}.
Arguments mkVision {N}.
Arguments obs_points {N} v.
Arguments obs_segs {N} v.
Arguments cached_vision {N} v.
Arguments cached_position {N} v.
Arguments cached_radius {N} v.
Arguments debug {N} v.
Arguments debug_points {N} v.

#[global] Instance Vision_eq_dec {N} `{EqDecision N} : EqDecision (Vision N).
Proof. solve_decision. Defined.

Section SetObstructors.
Context {N : Type}.

(** [Vision.set_obstructors] *)
Definition set_obstructors (self : Vision N)
    (obstructors : list (list (Vector N))) : Vision N :=
  {| obs_points := flatten_list obstructors;
     obs_segs := flatten_list (consecutive_pairs <$> obstructors);
     cached_vision := None;
     cached_position := None;
     cached_radius := None;
     debug := debug self;
     debug_points := debug_points self |}.

(** [Vision.__init__] *)
Definition Vision_init (obstructors : list (list (Vector N))) : Vision N :=
  {| obs_points := flatten_list obstructors;
     obs_segs := flatten_list (consecutive_pairs <$> obstructors);
     cached_vision := None;
     cached_position := None;
     cached_radius := None;
     debug := false;
     debug_points := [] |}.
End SetObstructors.

(** ** [Vision.calculate] and [Vision.get_vision] *)

Section FOV.
Context {N : Type} `{PyNum N} (M : MathModule N).

(** The colours of the debug points. *)
Definition colour_visible : Z := 0xFF0000.
Definition colour_crossing : Z := 0x00FFFF.

(** [sorted(l, key=key)]: a stable sort that compares keys with [<]; an
    element stays in front of the later elements that are not smaller. *)
Fixpoint insert_by_key {A} (key : A -> N) (a : A) (l : list A) : list A :=
  match l with
  | [] => [a]
  | b :: l' =>
      if nlt (key b) (key a) then b :: insert_by_key key a l'
      else a :: b :: l'
  end.

Definition py_sorted {A} (key : A -> N) (l : list A) : list A :=
  foldr (insert_by_key key) [] l.

(** [closest_points] *)
Definition closest_points (pts : list (Vector N)) (reference : Vector N)
    : list (Vector N) :=
  py_sorted (fun p => get_length_squared (vsub p reference)) pts.

(** [point_on_lineseg] *)
Definition point_on_lineseg (a b p : Vector N) : bool :=
  let crossproduct :=
    nsub (nmul (nsub (vy p) (vy a)) (nsub (vx b) (vx a)))
         (nmul (nsub (vx p) (vx a)) (nsub (vy b) (vy a))) in
  nlt (nabs crossproduct) n_hundredth
  && nle (nmin (vx a) (vx b)) (vx p) && nle (vx p) (nmax (vx a) (vx b))
  && nle (nmin (vy a) (vy b)) (vy p) && nle (vy p) (nmax (vy a) (vy b)).

(** [sub_segment] *)
Definition sub_segment (small big : Segment N) : bool :=
  point_on_lineseg big.1 big.2 small.1
  && point_on_lineseg big.1 big.2 small.2.

(** [segment_in_obs]: walks the object's full segment list. *)
Definition segment_in_obs (self : Vision N) (seg : Segment N) : bool :=
  existsb (fun line_segment => sub_segment seg line_segment) (obs_segs self).

Section Calculate.
Variables (self : Vision N) (eye : Vector N) (radius : N)
          (boundary : Polygon N).

Definition radius_squared : N := nmul radius radius.

(** The name [distance_point_lineseg_squared] as line 104 looks it up.  It
    is not a local of [calculate], the module binds only [Math] (line 3) and
    [Vision], and it is no builtin; the other primitives are all reached
    through [Math.].  The lookup raises [NameError]. *)
Definition distance_point_lineseg_squared
    : PyResult (Vector N -> Vector N -> Vector N -> N) :=
  Raise NameError.

(** [lineseg_in_radius] *)
Definition lineseg_in_radius (seg : Segment N) : PyResult bool :=
  distance ← distance_point_lineseg_squared;
  mret (nle (distance eye seg.1 seg.2) radius_squared).

(** Line 106 *)
Definition pruned_segs : PyResult (list (Segment N)) :=
  py_filter lineseg_in_radius (obs_segs self).

(** Lines 69-71: the object as [calculate] has it from line 73 on, until
    line 114. *)
Definition entered : Vision N :=
  {| obs_points := obs_points self;
     obs_segs := obs_segs self;
     cached_vision := cached_vision self;
     cached_position := Some eye;
     cached_radius := Some radius;
     debug := debug self;
     debug_points := [] |}.

(** Lines 109-192 are written over the local list [obs_segs] that line 106
    binds, here [near_segs]. *)
Section WithSegments.
Variable near_segs : list (Segment N).

(** [check_visibility] *)
Definition check_visibility (p : Vector N) : bool :=
  if ngt (get_length_squared (vsub eye p)) radius_squared
     && negb (bool_decide (p ∈ points boundary))
  then false
  else
    forallb (fun line_segment : Segment N =>
      negb (check_intersect_lineseg_lineseg M eye p
              line_segment.1 line_segment.2
            && (bool_decide (line_segment.1 <> p)
                && bool_decide (line_segment.2 <> p))))
      near_segs.

(** Line 109: the directly visible obstructor and boundary points. *)
Definition direct_visible : list (Vector N) :=
  List.filter check_visibility
    (set_iter M (obs_points self ++ points boundary)).

(** The edges of the boundary, with the closing edge:
    [zip(b, b[1:]) + [(b[-1], b[0])]]. *)
Definition boundary_edges : PyResult (list (Segment N)) :=
  last_point ← py_get (points boundary) (-1);
  first_point ← py_get (points boundary) 0;
  mret (consecutive_pairs (points boundary) ++ [(last_point, first_point)]).

(** Line 125: a crossing point that is not on the segment and whose sight
    line the segment meets. *)
Definition crossing_hidden (line_segment : Segment N) (p : Vector N)
    : bool :=
  negb (point_on_lineseg line_segment.1 line_segment.2 p)
  && check_intersect_lineseg_lineseg M eye p
       line_segment.1 line_segment.2.

(** Lines 120-128: the inner [while] of the crossing filter, for one
    segment. *)
Fixpoint crossing_loop (fuel : nat) (line_segment : Segment N)
    (bips : list (Vector N)) (i : Z) : PyResult (list (Vector N)) :=
  if decide (i < Z.of_nat (length bips)) then
    match fuel with
    | O => OutOfFuel
    | S fuel' =>
        p ← py_get bips i;
        if crossing_hidden line_segment p then
          bips' ← py_remove p bips;
          crossing_loop fuel' line_segment bips' i
        else crossing_loop fuel' line_segment bips (i + 1)
    end
  else Ok bips.

(** Lines 119-128: the [for] over the segments; the fuel of the inner loop
    is one pass per crossing point and one for the final test. *)
Fixpoint crossing_filter (segs : list (Segment N))
    (bips : list (Vector N)) : PyResult (list (Vector N)) :=
  match segs with
  | [] => Ok bips
  | line_segment :: segs' =>
      bips' ← crossing_loop (S (length bips)) line_segment bips 0;
      crossing_filter segs' bips'
  end.

(** Lines 151-152: an intersection beyond the radius is pulled back. *)
Definition clamp (closest_intersection : Vector N) : Vector N :=
  if ngt (get_length_squared (vsub eye closest_intersection))
         radius_squared
  then vadd (vscale (normalize M (vsub closest_intersection eye)) radius)
            eye
  else closest_intersection.

(** One pass through the body of the sweep's [while]: the new point
    list, the new index, and the vertex handed to [insert] in this
    pass, if any. *)
Record SweepStep := mkSweepStep {
  step_points : list (Vector N);
  step_index : Z;
  step_inserted : option (Vector N);
}.

Definition sweep_step (pts : list (Vector N)) (i : Z)
    : PyResult SweepStep :=
  p ← py_get pts (i - 1);
  c ← py_get pts i;
  n ← py_get pts ((i + 1) `mod` Z.of_nat (length pts));
  let intersections :=
    intersect_linesegs_ray M near_segs eye c
    ++ intersect_poly_ray M (points boundary) eye c in
  match intersections with
  | [] => Ok (mkSweepStep pts (i + 1) None)
  | _ :: _ =>
      closest ← py_get (closest_points intersections eye) 0;
      let closest_intersection := clamp closest in
      let sio_pc := segment_in_obs self (p, c) in
      let sio_cn := segment_in_obs self (c, n) in
      if negb sio_pc then
        let pts1 := py_insert i closest_intersection pts in
        let i1 := i + 1 in
        a ← py_get pts1 (i1 - 3);
        b ← py_get pts1 (i1 - 1);
        if segment_in_obs self (a, b) then
          wrong ← py_get pts1 (i1 - 2);
          pts2 ← py_remove wrong pts1;
          Ok (mkSweepStep pts2 (i1 - 1 + 1) (Some closest_intersection))
        else Ok (mkSweepStep pts1 (i1 + 1) (Some closest_intersection))
      else if sio_pc && negb sio_cn then
        Ok (mkSweepStep (py_insert (i + 1) closest_intersection pts)
              (i + 1 + 1) (Some closest_intersection))
      else Ok (mkSweepStep pts (i + 1) None)
  end.

(** Lines 136-180: the sweep.  The second component collects the
    vertices handed to [insert], in the order of the passes. *)
Fixpoint sweep_loop (fuel : nat) (pts : list (Vector N)) (i : Z)
    (inserted : list (Vector N))
    : PyResult (list (Vector N) * list (Vector N)) :=
  if decide (i < Z.of_nat (length pts)) then
    match fuel with
    | O => OutOfFuel
    | S fuel' =>
        s ← sweep_step pts i;
        sweep_loop fuel' (step_points s) (step_index s)
          (inserted ++ option_list (step_inserted s))
    end
  else Ok (pts, inserted).

(** The sweep from index 0, with fuel for one pass per vertex of the list
    it starts from and one for the final test. *)
Definition sweep (pts : list (Vector N))
    : PyResult (list (Vector N) * list (Vector N)) :=
  sweep_loop (S (length pts)) pts 0 [].

(** Lines 186-187: the fix-up at the seam of the vertex cycle. *)
Definition swap_first_two (pts : list (Vector N)) : list (Vector N) :=
  match pts with
  | a :: b :: rest => b :: a :: rest
  | _ => pts
  end.

Definition wrap_fix (pts : list (Vector N)) : PyResult (list (Vector N)) :=
  last_point ← py_get pts (-1);
  second ← py_get pts 1;
  if segment_in_obs self (last_point, second)
  then Ok (swap_first_two pts)
  else Ok pts.

(** Lines 109-112: the candidates. *)
Definition candidates
    : PyResult (list (Vector N) * list (Vector N)) :=
  edges ← boundary_edges;
  mret (direct_visible, intersect_linesegs_linesegs M near_segs edges).

(** Lines 119-134: the sorted vertex list the sweep starts from. *)
Definition sorted_vertices (visible_points bips : list (Vector N))
    : PyResult (list (Vector N)) :=
  bips' ← crossing_filter near_segs bips;
  mret (sort_around M eye (visible_points ++ bips')).

(** Lines 119-180: the vertex list after the sweep. *)
Definition swept_vertices (visible_points bips : list (Vector N))
    : PyResult (list (Vector N)) :=
  pts ← sorted_vertices visible_points bips;
  r ← sweep pts;
  mret r.1.

(** Lines 109-192 of [calculate], with [near_segs] for the local
    [obs_segs]. *)
Definition calculate_with : Vision N * PyResult (Polygon N) :=
  match candidates with
  | Raise e => (entered, Raise e)
  | OutOfFuel => (entered, OutOfFuel)
  | Ok (visible_points, bips) =>
      let self2 :=
        {| obs_points := obs_points self;
           obs_segs := obs_segs self;
           cached_vision := cached_vision self;
           cached_position := Some eye;
           cached_radius := Some radius;
           debug := debug self;
           debug_points :=
             if debug self then
               ((fun p => (p, colour_visible)) <$> visible_points)
               ++ ((fun p => (p, colour_crossing)) <$> bips)
             else [] |} in
      match pts ← swept_vertices visible_points bips; wrap_fix pts with
      | Raise e => (self2, Raise e)
      | OutOfFuel => (self2, OutOfFuel)
      | Ok pts =>
          let poly := mkPolygon pts in
          ({| obs_points := obs_points self;
              obs_segs := obs_segs self;
              cached_vision := Some poly;
              cached_position := Some eye;
              cached_radius := Some radius;
              debug := debug self;
              debug_points := debug_points self2 |}, Ok poly)
      end
  end.
End WithSegments.

(** [Vision.calculate] *)
Definition calculate : Vision N * PyResult (Polygon N) :=
  match pruned_segs with
  | Ok near_segs => calculate_with near_segs
  | Raise e => (entered, Raise e)
  | OutOfFuel => (entered, OutOfFuel)
  end.

(** Lines 56 and 58 when the test of line 55 holds: [calculate] runs and
    the polygon it cached is returned. *)
Definition recalculated : Vision N * PyResult (option (Polygon N)) :=
  let '(self', r) := calculate in
  (self', _ ← r; mret (cached_vision self')).

(** [Vision.get_vision] *)
Definition get_vision : Vision N * PyResult (option (Polygon N)) :=
  match cached_vision self with
  | None => recalculated
  | Some poly =>
      match cached_position self with
      | None => (self, Raise TypeError)
      | Some position =>
          if ngt (get_length_squared (vsub position eye)) n_one
          then recalculated
          else (self, Ok (cached_vision self))
      end
  end.
End Calculate.
End FOV.

(** ** Notions used in the statements *)

(** What it means for a call to have changed nothing but the cache fields
    [cached_vision], [cached_position] and [cached_radius]. *)
Definition only_cache_changed {N : Type} (before after : Vision N) : Prop :=
  obs_points after = obs_points before
  /\ obs_segs after = obs_segs before
  /\ debug after = debug before
  /\ debug_points after = debug_points before.

(** Comparisons behave as on a total order, [abs] keeps zero and the
    tolerance 0.01 of [point_on_lineseg] is positive. *)
Class PyNumTotal (N : Type) `{PyNum N} := {
  nle_total : forall a b : N, nle a b = false -> nle b a = true;
  nle_trans : forall a b c : N,
    nle a b = true -> nle b c = true -> nle a c = true;
  nabs_zero : nabs n_zero = n_zero;
  hundredth_positive : nlt n_zero n_hundredth = true;
}.

(** The assignment [vision.debug = flag] of a user of the class. *)
Definition set_debug {N : Type} (self : Vision N) (flag : bool) : Vision N :=
  {| obs_points := obs_points self;
     obs_segs := obs_segs self;
     cached_vision := cached_vision self;
     cached_position := cached_position self;
     cached_radius := cached_radius self;
     debug := flag;
     debug_points := debug_points self |}.

(** The objects a program gets from the constructor by calls of the
    methods and assignments to [debug]; the state a call leaves behind when
    it raises counts as well. *)
Inductive reachable {N : Type} `{PyNum N} (M : MathModule N)
    : Vision N -> Prop :=
  | reachable_init obstructors :
      reachable M (Vision_init obstructors)
  | reachable_set_obstructors self obstructors :
      reachable M self -> reachable M (set_obstructors self obstructors)
  | reachable_calculate self eye radius boundary :
      reachable M self ->
      reachable M (calculate M self eye radius boundary).1
  | reachable_get_vision self eye radius boundary :
      reachable M self ->
      reachable M (get_vision M self eye radius boundary).1
  | reachable_set_debug self flag :
      reachable M self -> reachable M (set_debug self flag).

Section SweepNotions.
Context {N : Type} `{PyNum N} (M : MathModule N).
Variables (eye : Vector N) (radius : N) (boundary : Polygon N)
          (near_segs : list (Segment N)).

(** Lines 143-152: the vertex the sweep computes for the vertex [c] when
    the ray from the eye through [c] meets something: the nearest hit,
    pulled back to the radius. *)
Definition sweep_hit (c : Vector N) : option (Vector N) :=
  clamp M eye radius
    <$> head (closest_points
                (intersect_linesegs_ray M near_segs eye c
                 ++ intersect_poly_ray M (points boundary) eye c) eye).
End SweepNotions.

(** ** What the geometry model needs besides [PyNum] *)

(** Division and the square root, which [FOV.py] itself never uses and the
    primitives of [Math] need. *)
Class PyNumDiv (N : Type) := {
  ndiv : N -> N -> N;
  nsqrt : N -> N;
}.

(** ** Exact rational arithmetic *)

#[global] Instance Qc_PyNum : PyNum Qc := {|
  num_eq_dec := Qc_eq_dec;
  nadd := Qcplus;
  nsub := Qcminus;
  nmul := Qcmult;
  nopp := Qcopp;
  nabs := fun a => if bool_decide (a < 0)%Qc then Qcopp a else a;
  nlt := fun a b => bool_decide (a < b)%Qc;
  nle := fun a b => bool_decide (a <= b)%Qc;
  n_zero := 0%Qc;
  n_one := 1%Qc;
  n_hundredth := Q2Qc (1 # 100);
|}.

(** A rational stand-in for the square root: exact when the root is
    rational, otherwise the root rounded up to ten decimal places. *)
Definition Qc_sqrt (q : Qc) : Qc :=
  let m := (Qnum q * Zpos (Qden q))%Z in
  let r := Z.sqrt m in
  if decide (r * r = m)%Z then Q2Qc (r # Qden q)
  else Q2Qc ((Z.sqrt (m * 10 ^ 20) + 1) # (Qden q * 10 ^ 10)).

#[global] Instance Qc_PyNumDiv : PyNumDiv Qc := {|
  ndiv := Qcdiv;
  nsqrt := Qc_sqrt;
|}.

(** ** Binary64 floating point *)

(** Python's [float] is the binary64 format of IEEE 754, and so are the
    primitive floats; [+], [-], [*], [/] and [sqrt] round to nearest in
    both.  Equality here is identity of the values, which differs from
    Python's [==] on the two zeros and on NaN only. *)
#[global] Instance float_eq_dec : EqDecision float.
Proof.
  intros x y. destruct (Leibniz.eqb x y) eqn:E.
  - left. apply Leibniz.eqb_spec. exact E.
  - right. intros Hxy. apply Leibniz.eqb_spec in Hxy. congruence.
Defined.

#[global] Instance Float_PyNum : PyNum float := {|
  num_eq_dec := float_eq_dec;
  nadd := PrimFloat.add;
  nsub := PrimFloat.sub;
  nmul := PrimFloat.mul;
  nopp := PrimFloat.opp;
  nabs := PrimFloat.abs;
  nlt := PrimFloat.ltb;
  nle := PrimFloat.leb;
  n_zero := 0%float;
  n_one := 1%float;
  n_hundredth := 0x1.47ae147ae147bp-7%float;   (* 0.01 *)
|}.

#[global] Instance Float_PyNumDiv : PyNumDiv float := {|
  ndiv := PrimFloat.div;
  nsqrt := PrimFloat.sqrt;
|}.

(** ** A model of the geometry primitives *)

Module Geometry.
Section Geometry.
Context {N : Type} `{PyNum N} `{PyNumDiv N}.

Local Abbreviation V := (Vector N).

Definition cross (a b : V) : N :=
  nsub (nmul (vx a) (vy b)) (nmul (vy a) (vx b)).

(** Neither negative nor positive. *)
Definition is_zero (a : N) : bool :=
  negb (nlt a n_zero) && negb (nlt n_zero a).

(** Modelled from the spec: the "exact line-segment/line-segment
    intersection" of the absent [Math] module.  The lines [p1 p2] and
    [q1 q2] meet at [p1 + t (p2 - p1) = q1 + u (q2 - q1)]; parallel lines
    give no point. *)
Definition line_params (p1 p2 q1 q2 : V) : option (N * N) :=
  let r := vsub p2 p1 in
  let s := vsub q2 q1 in
  let det := cross r s in
  if is_zero det then None
  else
    let w := vsub q1 p1 in
    Some (ndiv (cross w s) det, ndiv (cross w r) det).

Definition point_at (p1 p2 : V) (t : N) : V :=
  vadd p1 (vscale (vsub p2 p1) t).

Definition in_unit (t : N) : bool := nle n_zero t && nle t n_one.

Definition intersect_lineseg_lineseg (p1 p2 q1 q2 : V) : option V :=
  '(t, u) ← line_params p1 p2 q1 q2;
  if in_unit t && in_unit u then Some (point_at p1 p2 t) else None.

(** Modelled from the spec: [Math.check_intersect_lineseg_lineseg], whether
    the two closed segments meet; touching at an end point counts. *)
Definition check_intersect_lineseg_lineseg (p1 p2 q1 q2 : V) : bool :=
  bool_decide (is_Some (intersect_lineseg_lineseg p1 p2 q1 q2)).

(** Modelled from the spec: [Math.intersect_linesegs_linesegs], "all
    intersection points between" two lists of segments. *)
Definition intersect_linesegs_linesegs (segs1 segs2 : list (Segment N))
    : list V :=
  s1 ← segs1;
  omap (fun s2 : Segment N =>
          intersect_lineseg_lineseg s1.1 s1.2 s2.1 s2.2) segs2.

(** Modelled from the spec: the "ray/segment intersection" of the absent
    [Math] module, for the ray that the sweep casts "from [eye] through
    [current]" to find where sight is cut off or ends behind [current].
    The hits are the points of the segment [a b] on the line through [q1]
    and [q2] that lie beyond [q2] as seen from [q1]; the vertex aimed at is
    not a hit of its own ray.  This is what the scenarios of the
    specification fix: the square without obstructors keeps its four
    corners with nothing inserted, the wall has its shadow behind it,
    bounded by the rays through its ends extended to the boundary, and no
    two consecutive points of a polygon are equal. *)
Definition intersect_lineseg_ray (a b q1 q2 : V) : option V :=
  '(t, u) ← line_params a b q1 q2;
  if in_unit t && nlt n_one u then Some (point_at a b t) else None.

Definition intersect_linesegs_ray (segs : list (Segment N)) (q1 q2 : V)
    : list V :=
  omap (fun s : Segment N => intersect_lineseg_ray s.1 s.2 q1 q2) segs.

(** The closed loop of edges of a polygon. *)
Definition poly_edges (pts : list V) : list (Segment N) :=
  match pts with
  | first_point :: _ =>
      consecutive_pairs pts ++ [(List.last pts first_point, first_point)]
  | [] => []
  end.

(** Modelled from the spec: [Math.intersect_poly_ray], the ray against
    "every boundary edge" of the closed polygon. *)
Definition intersect_poly_ray (pts : list V) (q1 q2 : V) : list V :=
  intersect_linesegs_ray (poly_edges pts) q1 q2.

(** The angle of a direction, as [atan2] orders directions: from just
    above the negative x axis, counterclockwise, to the negative x axis. *)
Definition angle_class (v : V) : Z :=
  if nlt (vy v) n_zero then 0%Z
  else if nlt n_zero (vy v) then 2%Z
  else if nlt (vx v) n_zero then 3%Z else 1%Z.

Definition angle_lt (u v : V) : bool :=
  bool_decide (angle_class u < angle_class v)%Z
  || (bool_decide (angle_class u = angle_class v)
      && nlt n_zero (cross u v)).

Fixpoint insert_by_angle (eye a : V) (l : list V) : list V :=
  match l with
  | [] => [a]
  | b :: l' =>
      if angle_lt (vsub b eye) (vsub a eye) then b :: insert_by_angle eye a l'
      else a :: b :: l'
  end.

(** Modelled from the spec: [Polygon.sort_around], the "angular sort of a
    point set around a pivot"; stable, by increasing angle. *)
Definition sort_around (eye : V) (pts : list V) : list V :=
  foldr (insert_by_angle eye) [] pts.

(** Modelled from the spec: [Vector.normalize], "normalization": the
    vector divided by its length, the square root of its squared length. *)
Definition normalize (v : V) : V :=
  let length := nsqrt (get_length_squared v) in
  mkVector (ndiv (vx v) length) (ndiv (vy v) length).
End Geometry.
End Geometry.

(** The model of [Math], for any arithmetic. *)
Definition SpecMath (N : Type) `{PyNum N} `{PyNumDiv N} : MathModule N := {|
  check_intersect_lineseg_lineseg := Geometry.check_intersect_lineseg_lineseg;
  intersect_linesegs_linesegs := Geometry.intersect_linesegs_linesegs;
  intersect_linesegs_ray := Geometry.intersect_linesegs_ray;
  intersect_poly_ray := Geometry.intersect_poly_ray;
  sort_around := Geometry.sort_around;
  normalize := Geometry.normalize;
  set_iter := remove_dups;
  set_iter_NoDup := NoDup_remove_dups;
  set_iter_elem := fun l p => elem_of_remove_dups l p;
|}.

Definition ExactMath : MathModule Qc := SpecMath Qc.
Definition FloatMath : MathModule float := SpecMath float.

(** Points with integer coordinates. *)
Definition pt (a b : Z) : Vector Qc := mkVector (Qc_of_Z a) (Qc_of_Z b).

(** ** Scenarios *)

Definition origin : Vector Qc := pt 0 0.

(** The axis-aligned square of half-width [h] around the origin. *)
Definition square (h : Z) : Polygon Qc :=
  mkPolygon [pt h h; pt (-h) h; pt (-h) (-h); pt h (-h)].

Definition no_obstructors : Vision Qc := Vision_init [].

(** A wall to the right of the origin. *)
Definition wall_right : Vision Qc := Vision_init [[pt 2 (-1); pt 2 1]].

(** A wall to the left of the origin, across the negative x axis, where the
    angular order starts and ends. *)
Definition wall_left : Vision Qc := Vision_init [[pt (-2) (-1); pt (-2) 1]].

(** An object with the debug switch on. *)
Definition debugging : Vision Qc :=
  {| obs_points := []; obs_segs := []; cached_vision := None;
     cached_position := None; cached_radius := None;
     debug := true; debug_points := [] |}.

(** A closed square room around the origin. *)
Definition closed_room : Vision Qc :=
  Vision_init [[pt (-2) (-2); pt 2 (-2); pt 2 2; pt (-2) 2; pt (-2) (-2)]].

(** Two pillars: polylines of a single point, which give obstructor points
    and no segments. *)
Definition pillars : Vision Qc := Vision_init [[pt 3 4]; [pt (-1) 2]].


(** Two walls that meet in a corner. *)
Definition corner_walls : list (list (Vector Qc)) :=
  [[pt 0 0; pt 1 0]; [pt 1 0; pt 1 1]].

(** ** Scenarios in binary64 *)

Definition float_origin : Vector float := mkVector 0%float 0%float.

Definition float_square (h : float) : Polygon float :=
  mkPolygon [mkVector h h; mkVector (- h)%float h;
             mkVector (- h)%float (- h)%float; mkVector h (- h)%float].



(** * Properties *)

(** ** Python lists *)

Section PyListFacts.
Context {A : Type} `{EqDecision A}.
Implicit Types (l : list A) (a : A) (i : Z).

Lemma py_get_nonneg l i :
  0 <= i < Z.of_nat (length l) ->
  exists a, py_get l i = Ok a /\ l !! Z.to_nat i = Some a.
Proof.
  intros Hi. unfold py_get.
  destruct (decide (i < 0)) as [?|_]; [lia|].
  destruct (decide (0 <= i < Z.of_nat (length l))) as [_|?]; [|lia].
  destruct (lookup_lt_is_Some_2 l (Z.to_nat i)) as [a Ha]; [lia|].
  exists a. by rewrite Ha.
Qed.

Lemma py_get_neg l i :
  - Z.of_nat (length l) <= i < 0 ->
  exists a, py_get l i = Ok a
            /\ l !! Z.to_nat (i + Z.of_nat (length l)) = Some a.
Proof.
  intros Hi. unfold py_get.
  destruct (decide (i < 0)) as [_|?]; [|lia].
  destruct (decide (0 <= i + Z.of_nat (length l) < Z.of_nat (length l)))
    as [_|?]; [|lia].
  destruct (lookup_lt_is_Some_2 l (Z.to_nat (i + Z.of_nat (length l))))
    as [a Ha]; [lia|].
  exists a. by rewrite Ha.
Qed.

Lemma py_get_in_range l i :
  - Z.of_nat (length l) <= i < Z.of_nat (length l) ->
  exists a, py_get l i = Ok a /\ a ∈ l.
Proof.
  intros Hi. destruct (decide (i < 0)).
  - destruct (py_get_neg l i) as (a & ? & Ha); [lia|].
    exists a. split; [done|]. by eapply list_elem_of_lookup_2.
  - destruct (py_get_nonneg l i) as (a & ? & Ha); [lia|].
    exists a. split; [done|]. by eapply list_elem_of_lookup_2.
Qed.

Lemma py_get_Ok_elem l i a : py_get l i = Ok a -> a ∈ l.
Proof.
  unfold py_get. case_decide; [|done].
  destruct (l !! _) eqn:E; [|done].
  intros [= <-]. by eapply list_elem_of_lookup_2.
Qed.

Lemma py_get_empty i : py_get (@nil A) i = Raise IndexError.
Proof. unfold py_get. cbn. repeat case_decide; try done; lia. Qed.

Lemma length_py_insert i a l : length (py_insert i a l) = S (length l).
Proof.
  unfold py_insert. rewrite length_app. cbn.
  rewrite length_take, length_drop. lia.
Qed.

Lemma py_insert_nonneg i a l :
  0 <= i <= Z.of_nat (length l) ->
  py_insert i a l = take (Z.to_nat i) l ++ a :: drop (Z.to_nat i) l.
Proof.
  intros Hi. unfold py_insert.
  destruct (decide (i < 0)); [lia|]. by rewrite Z.min_l by lia.
Qed.

Lemma remove_first_elem a l :
  a ∈ l -> exists l', remove_first a l = Some l' /\ length l = S (length l').
Proof.
  induction l as [|b l IH]; [by intros ?%elem_of_nil|].
  intros Ha. cbn. destruct (decide (b = a)) as [->|Hne]; [by eauto|].
  apply elem_of_cons in Ha as [->|Ha]; [done|].
  destruct (IH Ha) as (l' & -> & Hlen). exists (b :: l'). cbn.
  split; [done|]. by rewrite Hlen.
Qed.

Lemma remove_first_sublist a l l' : remove_first a l = Some l' -> sublist l' l.
Proof.
  revert l'. induction l as [|b l IH]; intros l'; [done|]. cbn.
  destruct (decide (b = a)) as [->|Hne].
  - intros [= ->]. by apply sublist_cons.
  - destruct (remove_first a l) as [l''|]; [|done].
    intros [= <-]. apply sublist_skip. by apply IH.
Qed.

Lemma py_remove_elem a l :
  a ∈ l -> exists l', py_remove a l = Ok l' /\ length l = S (length l').
Proof.
  intros (l' & Hl' & ?)%remove_first_elem. exists l'.
  unfold py_remove. by rewrite Hl'.
Qed.

Lemma flatten_list_concat (ls : list (list A)) : flatten_list ls = concat ls.
Proof.
  destruct ls as [|h t]; [done|]. cbn. revert h.
  induction t as [|x t IH]; intros h; cbn.
  - by rewrite app_nil_r.
  - by rewrite IH, app_assoc.
Qed.

Lemma consecutive_pairs_short l :
  (length l < 2)%nat -> consecutive_pairs l = [].
Proof.
  destruct l as [|a [|b l]]; cbn; [done|done|lia].
Qed.

Lemma elem_of_consecutive_pairs l a b :
  (a, b) ∈ consecutive_pairs l
  <-> exists i : nat, l !! i = Some a /\ l !! S i = Some b.
Proof.
  unfold consecutive_pairs. rewrite list_elem_of_lookup. split.
  - intros (i & Hi). exists i.
    apply lookup_zip_with_Some in Hi as (x & y & [= -> ->] & Hx & Hy).
    split; [done|]. by rewrite lookup_drop in Hy.
  - intros (i & Ha & Hb). exists i.
    apply lookup_zip_with_Some. exists a, b.
    split; [done|]. split; [done|]. by rewrite lookup_drop.
Qed.
End PyListFacts.

Section PyListFacts2.
Context {A : Type} `{EqDecision A}.
Implicit Types (l : list A) (a : A) (i : Z).

Lemma remove_first_at l (k : nat) a :
  l !! k = Some a -> a ∉ take k l ->
  remove_first a l = Some (take k l ++ drop (S k) l).
Proof.
  revert k. induction l as [|b l IH]; intros [|k]; cbn; try done.
  - intros [= ->] _. by rewrite decide_True by done.
  - intros Hk Hnotin. apply not_elem_of_cons in Hnotin as [Hne Hnotin].
    rewrite decide_False by done. by rewrite (IH k).
Qed.
End PyListFacts2.

Section SortFacts.
Context {N : Type} `{PyNum N}.

Lemma length_insert_by_key {A} (key : A -> N) a (l : list A) :
  length (insert_by_key key a l) = S (length l).
Proof.
  induction l as [|b l IH]; cbn; [done|].
  destruct (nlt _ _); cbn; [|done]. by rewrite IH.
Qed.

Lemma length_py_sorted {A} (key : A -> N) (l : list A) :
  length (py_sorted key l) = length l.
Proof.
  induction l as [|a l IH]; [done|].
  change (py_sorted key (a :: l)) with (insert_by_key key a (py_sorted key l)).
  by rewrite length_insert_by_key, IH.
Qed.

Lemma insert_by_key_Permutation {A} (key : A -> N) a (l : list A) :
  insert_by_key key a l ≡ₚ a :: l.
Proof.
  induction l as [|b l IH]; cbn; [done|].
  destruct (nlt _ _); [|done]. rewrite IH. apply Permutation_swap.
Qed.

Lemma py_sorted_Permutation {A} (key : A -> N) (l : list A) :
  py_sorted key l ≡ₚ l.
Proof.
  induction l as [|a l IH]; [done|].
  change (py_sorted key (a :: l)) with (insert_by_key key a (py_sorted key l)).
  by rewrite insert_by_key_Permutation, IH.
Qed.
End SortFacts.

Section SweepFacts.
Context {N : Type} `{PyNum N} (M : MathModule N).
Variables (self : Vision N) (eye : Vector N) (radius : N)
          (boundary : Polygon N) (near_segs : list (Segment N)).

Local Abbreviation step := (sweep_step M self eye radius boundary near_segs).
Local Abbreviation loop := (sweep_loop M self eye radius boundary near_segs).

(** Each pass through the body of the sweep succeeds and brings the index
    one position closer to the end of the list. *)
Lemma sweep_step_progress (pts : list (Vector N)) (i : Z) :
  0 <= i < Z.of_nat (length pts) ->
  exists s, step pts i = Ok s
    /\ 0 <= step_index s <= Z.of_nat (length (step_points s))
    /\ Z.of_nat (length (step_points s)) - step_index s
       = Z.of_nat (length pts) - i - 1.
Proof.
  intros Hi. unfold sweep_step.
  destruct (py_get_in_range pts (i - 1)) as (p & -> & _); [lia|].
  destruct (py_get_nonneg pts i) as (c & -> & _); [lia|].
  destruct (py_get_nonneg pts ((i + 1) `mod` Z.of_nat (length pts)))
    as (n & -> & _); [apply Z.mod_pos_bound; lia|].
  cbn.
  destruct (_ ++ _) as [|x xs] eqn:Hhits.
  { eexists. split; [done|]. cbn. lia. }
  destruct (py_get_nonneg (closest_points (x :: xs) eye) 0)
    as (closest & -> & _).
  { unfold closest_points. rewrite length_py_sorted. cbn. lia. }
  cbn.
  set (X := clamp _ _ _ _).
  destruct (segment_in_obs self (p, c)); cbn.
  - destruct (segment_in_obs self (c, n)); cbn.
    + eexists. split; [done|]. cbn. lia.
    + eexists. split; [done|]. cbn. rewrite length_py_insert. lia.
  - pose proof (length_py_insert i X pts) as Hlen.
    destruct (py_get_in_range (py_insert i X pts) (i + 1 - 3))
      as (a & -> & _); [lia|].
    destruct (py_get_in_range (py_insert i X pts) (i + 1 - 1))
      as (b & -> & _); [lia|].
    cbn. destruct (segment_in_obs self (a, b)).
    + destruct (py_get_in_range (py_insert i X pts) (i + 1 - 2))
        as (wrong & -> & Hwrong); [lia|].
      cbn. destruct (py_remove_elem _ _ Hwrong) as (pts2 & -> & Hlen2).
      cbn. eexists. split; [done|]. cbn. lia.
    + eexists. split; [done|]. cbn. lia.
Qed.

Lemma sweep_loop_terminates (fuel : nat) :
  forall (pts : list (Vector N)) (i : Z) (inserted : list (Vector N)),
  0 <= i <= Z.of_nat (length pts) ->
  Z.of_nat (length pts) - i < Z.of_nat fuel ->
  exists pts' inserted', loop fuel pts i inserted = Ok (pts', inserted').
Proof.
  induction fuel as [|fuel IH]; intros pts i inserted Hi Hfuel.
  - cbn. rewrite decide_False by lia. eauto.
  - cbn. destruct (decide (i < Z.of_nat (length pts))) as [Hlt|]; [|eauto].
    destruct (sweep_step_progress pts i) as (s & -> & Hs & Hm); [lia|].
    cbn. apply IH; lia.
Qed.

(** More fuel than needed does not change the outcome. *)
Lemma sweep_loop_fuel_mono (fuel fuel' : nat) pts i inserted r :
  (fuel <= fuel')%nat ->
  loop fuel pts i inserted = Ok r -> loop fuel' pts i inserted = Ok r.
Proof.
  revert fuel' pts i inserted.
  induction fuel as [|fuel IH]; intros [|fuel'] pts i inserted Hle; cbn;
    try lia; case_decide; try done.
  destruct (step pts i) as [s| |]; cbn; try done.
  apply IH. lia.
Qed.
End SweepFacts.

Section CrossingFacts.
Context {N : Type} `{PyNum N} (M : MathModule N).
Variables (eye : Vector N).

Local Abbreviation hidden := (crossing_hidden M eye).
Local Abbreviation keep seg := (fun p => negb (crossing_hidden M eye seg p)).

(** The inner [while] of the crossing filter drops exactly the points that
    the segment hides: [remove] always hits the point under the index,
    because every earlier point has been kept. *)
Lemma crossing_loop_filter (fuel : nat) (seg : Segment N) :
  forall (bips : list (Vector N)) (k : nat),
  (k <= length bips)%nat ->
  (forall x, x ∈ take k bips -> hidden seg x = false) ->
  (length bips - k < fuel)%nat ->
  crossing_loop M eye fuel seg bips (Z.of_nat k)
  = Ok (take k bips ++ List.filter (keep seg) (drop k bips)).
Proof.
  induction fuel as [|fuel IH]; intros bips k Hk Hkept Hfuel; [lia|].
  cbn. destruct (decide (Z.of_nat k < Z.of_nat (length bips))) as [Hlt|Hge].
  - destruct (py_get_nonneg bips (Z.of_nat k)) as (p & -> & Hp); [lia|].
    rewrite Nat2Z.id in Hp. cbn.
    rewrite (drop_S _ _ _ Hp). cbn.
    destruct (crossing_hidden M eye seg p) eqn:Hhid; cbn.
    + unfold py_remove. rewrite (remove_first_at bips k p Hp).
      2:{ intros Hin. apply Hkept in Hin. congruence. }
      cbn. rewrite IH.
      * rewrite take_app_length' by (rewrite length_take; lia).
        rewrite drop_app_length' by (rewrite length_take; lia). done.
      * rewrite length_app, length_take, length_drop. lia.
      * intros x. rewrite take_app_length' by (rewrite length_take; lia).
        apply Hkept.
      * rewrite length_app, length_take, length_drop. lia.
    + replace (Z.of_nat k + 1) with (Z.of_nat (S k)) by lia.
      rewrite IH.
      * rewrite (take_S_r _ _ _ Hp), <- app_assoc. done.
      * lia.
      * intros x. rewrite (take_S_r _ _ _ Hp).
        intros [?| ->%list_elem_of_singleton]%elem_of_app; auto.
      * lia.
  - rewrite take_ge, drop_ge by lia. by rewrite app_nil_r.
Qed.

Lemma crossing_loop_whole (seg : Segment N) (bips : list (Vector N)) :
  crossing_loop M eye (S (length bips)) seg bips 0
  = Ok (List.filter (keep seg) bips).
Proof.
  rewrite (crossing_loop_filter _ seg bips 0); [done|lia| |lia].
  intros x. rewrite take_0. by intros ?%elem_of_nil.
Qed.

(** The crossing filter never raises and never runs out of fuel: it keeps
    the crossing points that no segment hides. *)
Lemma crossing_filter_filter (segs : list (Segment N)) :
  forall bips : list (Vector N),
  crossing_filter M eye segs bips
  = Ok (List.filter (fun p => forallb (fun seg => keep seg p) segs) bips).
Proof.
  induction segs as [|seg segs IH]; intros bips; cbn -[crossing_loop].
  - f_equal. induction bips as [|b bips IHb]; cbn; [done|]. by f_equal.
  - rewrite crossing_loop_whole. cbn. rewrite IH. f_equal.
    induction bips as [|b bips IHb]; cbn; [done|].
    destruct (crossing_hidden M eye seg b); cbn; [done|].
    destruct (forallb _ segs); cbn; by rewrite IHb.
Qed.
End CrossingFacts.

Section FilterFacts.
Context {A : Type}.

Lemma py_filter_raises (f : A -> PyResult bool) (e : PyExn) (l : list A) :
  (forall a, f a = Raise e) ->
  py_filter f l = match l with [] => Ok [] | _ :: _ => Raise e end.
Proof. intros Hf. destruct l as [|a l]; [done|]. cbn. by rewrite Hf. Qed.
End FilterFacts.

(** ** Line 106 *)

Section PruningFacts.
Context {N : Type} `{PyNum N} (M : MathModule N).
Variables (self : Vision N) (eye : Vector N) (radius : N)
          (boundary : Polygon N).

(** The pruning of line 106 gets through only when there is nothing to
    prune. *)
Lemma pruned_segs_cases :
  pruned_segs self eye radius
  = match obs_segs self with [] => Ok [] | _ :: _ => Raise NameError end.
Proof. unfold pruned_segs. by apply py_filter_raises. Qed.

Lemma calculate_without_segs :
  obs_segs self = [] ->
  calculate M self eye radius boundary
  = calculate_with M self eye radius boundary [].
Proof. intros Hobs. unfold calculate. by rewrite pruned_segs_cases, Hobs. Qed.

Lemma calculate_with_segs :
  obs_segs self <> [] ->
  calculate M self eye radius boundary
  = (entered self eye radius, Raise NameError).
Proof.
  intros Hobs. unfold calculate. rewrite pruned_segs_cases.
  by destruct (obs_segs self).
Qed.

(** Every run of [calculate] is one of the two. *)
Lemma calculate_cases :
  (obs_segs self = []
   /\ calculate M self eye radius boundary
      = calculate_with M self eye radius boundary [])
  \/ (obs_segs self <> []
      /\ calculate M self eye radius boundary
         = (entered self eye radius, Raise NameError)).
Proof.
  destruct (obs_segs self) as [|seg segs] eqn:Hobs.
  - left. split; [done|]. by apply calculate_without_segs.
  - right. split; [done|]. apply calculate_with_segs. by rewrite Hobs.
Qed.
End PruningFacts.

Section Termination.
Context {N : Type} `{PyNum N} (M : MathModule N).
Variables (self : Vision N) (eye : Vector N) (radius : N)
          (boundary : Polygon N).

Lemma sweep_Ok (near_segs : list (Segment N)) (pts : list (Vector N)) :
  exists pts' inserted,
    sweep M self eye radius boundary near_segs pts = Ok (pts', inserted).
Proof. apply sweep_loop_terminates; lia. Qed.

Lemma py_get_not_OutOfFuel {A} (l : list A) i : py_get l i <> OutOfFuel.
Proof. unfold py_get. case_decide; [|done]. by destruct (l !! _). Qed.

Lemma candidates_not_OutOfFuel (near_segs : list (Segment N)) :
  candidates M self eye radius boundary near_segs <> OutOfFuel.
Proof.
  unfold candidates, boundary_edges.
  pose proof (py_get_not_OutOfFuel (points boundary) (-1)) as H1.
  pose proof (py_get_not_OutOfFuel (points boundary) 0) as H2.
  destruct (py_get (points boundary) (-1)); [|done|done].
  destruct (py_get (points boundary) 0); done.
Qed.

Lemma swept_vertices_Ok (near_segs : list (Segment N))
    (visible_points bips : list (Vector N)) :
  exists pts,
    swept_vertices M self eye radius boundary near_segs visible_points bips
    = Ok pts.
Proof.
  unfold swept_vertices, sorted_vertices.
  rewrite crossing_filter_filter.
  cbn [mbind mret PyResult_bind PyResult_ret].
  match goal with
  | |- context [sweep _ _ _ _ _ _ ?pts] =>
      destruct (sweep_Ok near_segs pts) as (pts' & ins & ->)
  end.
  by eexists.
Qed.

Lemma wrap_fix_not_OutOfFuel (pts : list (Vector N)) :
  wrap_fix self pts <> OutOfFuel.
Proof.
  unfold wrap_fix.
  pose proof (py_get_not_OutOfFuel pts (-1)) as H3.
  pose proof (py_get_not_OutOfFuel pts 1) as H4.
  destruct (py_get pts (-1)); [|done|done].
  destruct (py_get pts 1); [|done|done].
  cbn [mbind PyResult_bind]. by destruct (segment_in_obs _ _).
Qed.

Lemma calculate_with_not_OutOfFuel (near_segs : list (Segment N)) :
  (calculate_with M self eye radius boundary near_segs).2 <> OutOfFuel.
Proof.
  unfold calculate_with.
  pose proof (candidates_not_OutOfFuel near_segs) as Hc.
  destruct (candidates _ _ _ _ _ _) as [[vis bips]|e|]; [|done|done].
  destruct (swept_vertices_Ok near_segs vis bips) as (pts & ->).
  cbn [mbind PyResult_bind].
  pose proof (wrap_fix_not_OutOfFuel pts) as Hw.
  by destruct (wrap_fix self pts).
Qed.

Lemma calculate_not_OutOfFuel :
  (calculate M self eye radius boundary).2 <> OutOfFuel.
Proof.
  destruct (calculate_cases M self eye radius boundary) as [[_ ->]|[_ ->]];
    [apply calculate_with_not_OutOfFuel|done].
Qed.

(** C5.  The shadow-edge sweep terminates on every input.  Started at
    index 0 on any vertex list, for any eye, radius, boundary, segment list
    and obstructor data, the loop leaves through its guard (the index has
    reached the end of the mutated list) without raising, within the fuel
    of one pass per initial vertex plus the final test; more fuel gives the
    same result; and [calculate] as a whole never runs out of fuel. *)
Theorem sweep_terminates (near_segs : list (Segment N))
    (pts : list (Vector N)) :
  (exists pts' inserted,
     sweep M self eye radius boundary near_segs pts = Ok (pts', inserted)
     /\ forall fuel : nat, (length pts < fuel)%nat ->
          sweep_loop M self eye radius boundary near_segs fuel pts 0 []
          = Ok (pts', inserted))
  /\ (calculate M self eye radius boundary).2 <> OutOfFuel.
Proof.
  split; [|apply calculate_not_OutOfFuel].
  destruct (sweep_Ok near_segs pts) as (pts' & ins & Hs).
  exists pts', ins. split; [done|]. intros fuel Hfuel.
  eapply sweep_loop_fuel_mono; [|exact Hs]. lia.
Qed.
End Termination.

Section SweepWithoutHits.
Context {N : Type} `{PyNum N} (M : MathModule N).
Variables (self : Vision N) (eye : Vector N) (radius : N)
          (boundary : Polygon N) (near_segs : list (Segment N)).

Local Abbreviation hits c :=
  (intersect_linesegs_ray M near_segs eye c
   ++ intersect_poly_ray M (points boundary) eye c).

Lemma sweep_loop_without_hits (fuel : nat) :
  forall (pts : list (Vector N)) (i : Z) (inserted : list (Vector N)),
  0 <= i ->
  (forall c, c ∈ drop (Z.to_nat i) pts -> hits c = []) ->
  Z.of_nat (length pts) - i < Z.of_nat fuel ->
  sweep_loop M self eye radius boundary near_segs fuel pts i inserted
  = Ok (pts, inserted).
Proof.
  induction fuel as [|fuel IH]; intros pts i inserted Hi Hnone Hfuel.
  - cbn. rewrite decide_False by lia. done.
  - cbn [sweep_loop].
    destruct (decide (i < Z.of_nat (length pts))) as [Hlt|]; [|done].
    unfold sweep_step.
    destruct (py_get_in_range pts (i - 1)) as (p & -> & _); [lia|].
    destruct (py_get_nonneg pts i) as (c & -> & Hc); [lia|].
    destruct (py_get_nonneg pts ((i + 1) `mod` Z.of_nat (length pts)))
      as (n & -> & _); [apply Z.mod_pos_bound; lia|].
    cbn [mbind PyResult_bind].
    rewrite Hnone by (rewrite (drop_S _ _ _ Hc); apply list_elem_of_here).
    cbn [mbind PyResult_bind step_points step_index step_inserted option_list].
    rewrite app_nil_r. apply IH; [lia| |lia].
    intros c' Hc'. apply Hnone.
    replace (Z.to_nat (i + 1)) with (S (Z.to_nat i)) in Hc' by lia.
    rewrite (drop_S _ _ _ Hc). by apply list_elem_of_further.
Qed.

(** When the rays through the vertices meet nothing, the sweep inserts
    nothing and returns the vertices as they were sorted.  Whether the ray
    aimed at a vertex reports that vertex as a hit is thus what decides the
    outcome of the sweep on a boundary without obstructors. *)
Lemma sweep_without_hits (pts : list (Vector N)) :
  (forall c, c ∈ pts -> hits c = []) ->
  sweep M self eye radius boundary near_segs pts = Ok (pts, []).
Proof.
  intros Hnone. apply sweep_loop_without_hits; [lia| |lia].
  intros c Hc. apply Hnone. by rewrite drop_0 in Hc.
Qed.
End SweepWithoutHits.

Section NoObstructors.
Context {N : Type} `{PyNum N} (M : MathModule N).
Variables (eye : Vector N) (radius : N) (boundary : Polygon N).

(** Without obstructors every boundary vertex is directly visible, and if
    the ray primitives report no hit for the rays aimed at the boundary
    vertices, [calculate] returns the boundary vertices as [sort_around]
    orders them, with nothing inserted. *)
Lemma no_obstructors_no_hits :
  (forall edges, intersect_linesegs_linesegs M [] edges = []) ->
  (forall c, intersect_linesegs_ray M [] eye c = []) ->
  (forall c, c ∈ points boundary ->
     intersect_poly_ray M (points boundary) eye c = []) ->
  (forall l, sort_around M eye l ≡ₚ l) ->
  (2 <= length (set_iter M (points boundary)))%nat ->
  (calculate M (Vision_init []) eye radius boundary).2
  = Ok (mkPolygon (sort_around M eye (set_iter M (points boundary)))).
Proof.
  intros Hcross Hsegs Hpoly Hsort Hlen.
  assert (Hlenb : (2 <= length (points boundary))%nat).
  { etrans; [exact Hlen|]. apply submseteq_length, NoDup_submseteq.
    - apply set_iter_NoDup.
    - intros x Hx. by apply set_iter_elem in Hx. }
  rewrite calculate_without_segs by done.
  unfold calculate_with, candidates, boundary_edges.
  destruct (py_get_in_range (points boundary) (-1)) as (l & -> & _); [lia|].
  destruct (py_get_nonneg (points boundary) 0) as (f & -> & _); [lia|].
  cbn [mbind PyResult_bind mret PyResult_ret]. rewrite Hcross.
  assert (Hvis : direct_visible M (Vision_init []) eye radius boundary []
                 = set_iter M (points boundary)).
  { unfold direct_visible. cbn [Vision_init obs_points flatten_list app].
    assert (Hin : forall p, p ∈ set_iter M (points boundary) ->
                            p ∈ points boundary)
      by (intros p Hp; by apply set_iter_elem in Hp).
    clear Hlen. induction (set_iter M (points boundary)) as [|p ps IH];
      [done|].
    cbn [List.filter]. rewrite IH
      by (intros q Hq; apply Hin; by apply list_elem_of_further).
    unfold check_visibility. cbn [forallb].
    rewrite (bool_decide_eq_true_2 (p ∈ points boundary))
      by (apply Hin, list_elem_of_here).
    by rewrite andb_false_r. }
  rewrite Hvis. unfold swept_vertices, sorted_vertices.
  rewrite crossing_filter_filter. cbn [mbind PyResult_bind mret PyResult_ret List.filter].
  rewrite app_nil_r.
  rewrite sweep_without_hits.
  2:{ intros c Hc. rewrite Hsegs, Hpoly; [done|].
      rewrite Hsort in Hc. by apply set_iter_elem in Hc. }
  cbn [mbind PyResult_bind mret PyResult_ret fst].
  unfold wrap_fix.
  assert (Hl : (2 <= length (sort_around M eye (set_iter M (points boundary))))%nat)
    by (by rewrite Hsort).
  destruct (py_get_in_range (sort_around M eye (set_iter M (points boundary))) (-1)) as (a & -> & _); [lia|].
  destruct (py_get_nonneg (sort_around M eye (set_iter M (points boundary))) 1) as (b & -> & _); [lia|].
  cbn. done.
Qed.
End NoObstructors.

Lemma elem_of_concat {A} (x : A) (ls : list (list A)) :
  x ∈ concat ls <-> exists l, x ∈ l /\ l ∈ ls.
Proof.
  induction ls as [|l ls IH]; cbn.
  - split; [by intros ?%elem_of_nil|by intros (? & _ & ?%elem_of_nil)].
  - rewrite elem_of_app, IH. split.
    + intros [?|(l' & ? & ?)]; [exists l|exists l']; split; try done;
        [apply list_elem_of_here|by apply list_elem_of_further].
    + intros (l' & ? & [->|?]%elem_of_cons); eauto.
Qed.

Section SetObstructorsFacts.
Context {N : Type}.

(** C8 (amended).  [set_obstructors] stores the concatenation of the
    polylines as the points, every vertex as often as the polylines have
    it, so that a point is stored exactly when it is a vertex of some
    polyline; it stores as the segments exactly the consecutive vertex pairs
    of each polyline, concatenated, so that every stored segment joins two
    neighbours of one polyline (no edge between polylines, no closing edge);
    a polyline of fewer than two points yields no segment and only its
    points; the cache is cleared.  The function is total: no list of
    polylines makes it fail. *)
Theorem set_obstructors_index (self : Vision N)
    (obstructors : list (list (Vector N))) :
  let index := set_obstructors self obstructors in
  obs_points index = concat obstructors
  /\ length (obs_points index) = list_sum (map length obstructors)
  /\ (forall p, p ∈ obs_points index
        <-> exists strip, strip ∈ obstructors /\ p ∈ strip)
  /\ obs_segs index = concat (consecutive_pairs <$> obstructors)
  /\ (forall a b, (a, b) ∈ obs_segs index
        <-> exists strip (i : nat), strip ∈ obstructors
              /\ strip !! i = Some a /\ strip !! S i = Some b)
  /\ (forall strip : list (Vector N),
        (length strip < 2)%nat -> consecutive_pairs strip = [])
  /\ cached_vision index = None
  /\ cached_position index = None
  /\ cached_radius index = None.
Proof.
  cbn. rewrite !flatten_list_concat.
  assert (Hpts : forall p, p ∈ concat obstructors
            <-> exists strip, strip ∈ obstructors /\ p ∈ strip).
  { intros p. rewrite elem_of_concat.
    split; intros (strip & ? & ?); by exists strip. }
  split_and!; try done.
  - apply length_concat.
  - intros a b. rewrite elem_of_concat. split.
    + intros (ps & Hab & (strip & -> & Hstrip)%list_elem_of_fmap).
      apply elem_of_consecutive_pairs in Hab as (i & ? & ?). eauto.
    + intros (strip & i & Hstrip & Ha & Hb).
      exists (consecutive_pairs strip). split.
      * apply elem_of_consecutive_pairs. eauto.
      * apply list_elem_of_fmap. eauto.
  - apply consecutive_pairs_short.
Qed.
End SetObstructorsFacts.

Section StateFacts.
Context {N : Type} `{PyNum N} (M : MathModule N).
Variables (self : Vision N) (eye : Vector N) (radius : N)
          (boundary : Polygon N).

(** What lines 109-192 leave in the object. *)
Lemma calculate_with_state (near_segs : list (Segment N)) :
  let r := calculate_with M self eye radius boundary near_segs in
  obs_points r.1 = obs_points self
  /\ obs_segs r.1 = obs_segs self
  /\ debug r.1 = debug self
  /\ cached_position r.1 = Some eye
  /\ cached_radius r.1 = Some radius
  /\ cached_vision r.1
     = match r.2 with Ok poly => Some poly | _ => cached_vision self end.
Proof.
  unfold calculate_with.
  destruct (candidates _ _ _ _ _ _) as [[vis bips]| |]; [|by cbn|by cbn].
  match goal with
  | |- context [mbind ?f ?m] => destruct (mbind f m) as [pts| |]
  end; by cbn.
Qed.

(** What a call of [calculate] leaves in the object. *)
Lemma calculate_state :
  let r := calculate M self eye radius boundary in
  obs_points r.1 = obs_points self
  /\ obs_segs r.1 = obs_segs self
  /\ debug r.1 = debug self
  /\ cached_position r.1 = Some eye
  /\ cached_radius r.1 = Some radius
  /\ cached_vision r.1
     = match r.2 with Ok poly => Some poly | _ => cached_vision self end.
Proof.
  cbv zeta.
  destruct (calculate_cases M self eye radius boundary) as [[_ ->]|[_ ->]];
    [apply calculate_with_state|done].
Qed.
End StateFacts.

Section CacheFacts.
Context {N : Type} `{PyNumOrder N} (M : MathModule N).

Lemma ngt_nle (a b : N) : ngt a b = negb (nle a b).
Proof. unfold ngt. apply nlt_nle. Qed.


(** C6.  [get_vision] recomputes exactly when nothing is cached or the
    eye has moved from the cached position by a squared distance of more
    than 1: it then runs [calculate] with its own arguments, leaves the
    object as [calculate] leaves it and returns the polygon [calculate]
    returns (or raises what it raises).  Otherwise it leaves the object
    alone and returns the cached polygon, whatever radius it is called
    with.  In particular a polygon that [calculate] cached for one radius is
    what a later call with another radius returns, as long as the eye stays
    within squared distance 1 of the cached position. *)
Theorem get_vision_cache_policy (self : Vision N) (eye : Vector N)
    (radius : N) (boundary : Polygon N) :
  (cached_vision self = None ->
     get_vision M self eye radius boundary
     = ((calculate M self eye radius boundary).1,
        poly ← (calculate M self eye radius boundary).2; mret (Some poly)))
  /\ (forall poly position,
        cached_vision self = Some poly ->
        cached_position self = Some position ->
        nle (get_length_squared (vsub position eye)) n_one = false ->
        get_vision M self eye radius boundary
        = ((calculate M self eye radius boundary).1,
           poly ← (calculate M self eye radius boundary).2;
           mret (Some poly)))
  /\ (forall poly position,
        cached_vision self = Some poly ->
        cached_position self = Some position ->
        nle (get_length_squared (vsub position eye)) n_one = true ->
        forall radius',
          get_vision M self eye radius' boundary = (self, Ok (Some poly)))
  /\ (forall poly eye' radius' boundary',
        (calculate M self eye radius boundary).2 = Ok poly ->
        nle (get_length_squared (vsub eye eye')) n_one = true ->
        get_vision M (calculate M self eye radius boundary).1
          eye' radius' boundary'
        = ((calculate M self eye radius boundary).1, Ok (Some poly))).
Proof.
  assert (Hhit : forall s e r b poly position,
    cached_vision s = Some poly -> cached_position s = Some position ->
    nle (get_length_squared (vsub position e)) n_one = true ->
    get_vision M s e r b = (s, Ok (Some poly))).
  { intros s e r b poly position Hv Hp Hle. unfold get_vision.
    rewrite Hv, Hp, ngt_nle, Hle. done. }
  assert (Hmiss : recalculated M self eye radius boundary
    = ((calculate M self eye radius boundary).1,
       poly ← (calculate M self eye radius boundary).2; mret (Some poly))).
  { unfold recalculated.
    pose proof (calculate_state M self eye radius boundary)
      as (_ & _ & _ & _ & _ & Hv).
    cbv zeta in Hv.
    destruct (calculate M self eye radius boundary) as [self' [poly|e|]];
      cbn in *; by rewrite ?Hv. }
  split_and!.
  - intros Hv. rewrite <- Hmiss. unfold get_vision. by rewrite Hv.
  - intros poly position Hv Hp Hle. rewrite <- Hmiss. unfold get_vision.
    rewrite Hv, Hp, ngt_nle, Hle. done.
  - intros poly position Hv Hp Hle radius'. by eapply Hhit.
  - intros poly eye' radius' boundary' Hcalc Hle.
    pose proof (calculate_state M self eye radius boundary)
      as (_ & _ & _ & Hp & _ & Hv).
    cbv zeta in Hp, Hv. rewrite Hcalc in Hv. by eapply Hhit.
Qed.

(** C10.  On a cache hit the boundary argument is not looked at: two
    calls that differ only in the boundary both return the cached polygon
    and leave the object as it is. *)
Theorem get_vision_ignores_boundary_on_hit (self : Vision N)
    (eye : Vector N) (radius : N) (boundary1 boundary2 : Polygon N)
    (poly : Polygon N) (position : Vector N) :
  cached_vision self = Some poly ->
  cached_position self = Some position ->
  nle (get_length_squared (vsub position eye)) n_one = true ->
  get_vision M self eye radius boundary1
  = get_vision M self eye radius boundary2
  /\ get_vision M self eye radius boundary1 = (self, Ok (Some poly)).
Proof.
  intros Hv Hp Hle.
  assert (Hhit : forall b,
    get_vision M self eye radius b = (self, Ok (Some poly))).
  { intros b. unfold get_vision. rewrite Hv, Hp, ngt_nle, Hle. done. }
  by rewrite !Hhit.
Qed.
End CacheFacts.

Section IdempotenceFacts.
Context {N : Type} `{PyNum N} (M : MathModule N).
Variables (eye : Vector N) (radius : N) (boundary : Polygon N).

(** The result of [calculate], and the debug points it leaves, depend on
    the object only through the obstructor data and the debug switch. *)
Lemma calculate_with_obstructor_data (near_segs : list (Segment N))
    ps ss cv1 cp1 cr1 dp1 cv2 cp2 cr2 dp2 d :
  let r1 := calculate_with M (mkVision ps ss cv1 cp1 cr1 d dp1)
              eye radius boundary near_segs in
  let r2 := calculate_with M (mkVision ps ss cv2 cp2 cr2 d dp2)
              eye radius boundary near_segs in
  r1.2 = r2.2 /\ debug_points r1.1 = debug_points r2.1.
Proof.
  cbv zeta. unfold calculate_with.
  set (s1 := mkVision ps ss cv1 cp1 cr1 d dp1).
  set (s2 := mkVision ps ss cv2 cp2 cr2 d dp2).
  change (candidates M s1 eye radius boundary near_segs)
    with (candidates M s2 eye radius boundary near_segs).
  destruct (candidates _ _ _ _ _ _) as [[vis bips]| |]; [|by cbn|by cbn].
  change (swept_vertices M s1 eye radius boundary near_segs vis bips
            ≫= wrap_fix s1)
    with (swept_vertices M s2 eye radius boundary near_segs vis bips
            ≫= wrap_fix s2).
  by destruct (_ ≫= _).
Qed.

Lemma calculate_obstructor_data
    ps ss cv1 cp1 cr1 dp1 cv2 cp2 cr2 dp2 d :
  let r1 := calculate M (mkVision ps ss cv1 cp1 cr1 d dp1)
              eye radius boundary in
  let r2 := calculate M (mkVision ps ss cv2 cp2 cr2 d dp2)
              eye radius boundary in
  r1.2 = r2.2 /\ debug_points r1.1 = debug_points r2.1.
Proof.
  cbv zeta. destruct ss as [|seg ss].
  - rewrite !calculate_without_segs by done.
    apply calculate_with_obstructor_data.
  - by rewrite !calculate_with_segs by done.
Qed.

Lemma Vision_eq (s1 s2 : Vision N) :
  obs_points s1 = obs_points s2 -> obs_segs s1 = obs_segs s2 ->
  cached_vision s1 = cached_vision s2 ->
  cached_position s1 = cached_position s2 ->
  cached_radius s1 = cached_radius s2 ->
  debug s1 = debug s2 -> debug_points s1 = debug_points s2 ->
  s1 = s2.
Proof. destruct s1, s2; cbn; congruence. Qed.

(** C9 (amended).  [calculate] is deterministic and idempotent: a second
    call with the same arguments returns what the first returned and leaves
    the object as the first call left it.  The first call changes the cache
    fields and [debug_points] only; the obstructor data and the debug
    switch stay; and neither the cache fields nor [debug_points] influence
    the result. *)
Theorem calculate_idempotent (self : Vision N) :
  let first := calculate M self eye radius boundary in
  let second := calculate M first.1 eye radius boundary in
  second.2 = first.2
  /\ second.1 = first.1
  /\ obs_points first.1 = obs_points self
  /\ obs_segs first.1 = obs_segs self
  /\ debug first.1 = debug self
  /\ (forall cv cp cr dp,
        (calculate M (mkVision (obs_points self) (obs_segs self)
                        cv cp cr (debug self) dp)
           eye radius boundary).2 = first.2).
Proof.
  cbv zeta.
  assert (Hindep : forall cv cp cr dp,
    let r := calculate M (mkVision (obs_points self) (obs_segs self)
                        cv cp cr (debug self) dp) eye radius boundary in
    r.2 = (calculate M self eye radius boundary).2
    /\ debug_points r.1
       = debug_points (calculate M self eye radius boundary).1).
  { intros cv cp cr dp. cbv zeta. destruct self as [ps ss cv0 cp0 cr0 d dp0].
    apply calculate_obstructor_data. }
  pose proof (calculate_state M self eye radius boundary)
    as (Hp1 & Hs1 & Hd1 & Hcp1 & Hcr1 & Hcv1).
  cbv zeta in Hp1, Hs1, Hd1, Hcp1, Hcr1, Hcv1.
  set (first := calculate M self eye radius boundary) in *.
  assert (Hsecond : (calculate M first.1 eye radius boundary).2 = first.2
    /\ debug_points (calculate M first.1 eye radius boundary).1
       = debug_points first.1).
  { specialize (Hindep (cached_vision first.1) (cached_position first.1)
      (cached_radius first.1) (debug_points first.1)).
    cbv zeta in Hindep. rewrite <- Hp1, <- Hs1, <- Hd1 in Hindep.
    by destruct (first.1). }
  destruct Hsecond as [Hr2 Hdp2].
  pose proof (calculate_state M first.1 eye radius boundary)
    as (Hp2 & Hs2 & Hd2 & Hcp2 & Hcr2 & Hcv2).
  cbv zeta in Hp2, Hs2, Hd2, Hcp2, Hcr2, Hcv2.
  split_and!; try done.
  - apply Vision_eq; try congruence.
    rewrite Hcv2, Hr2, Hcv1. by destruct (first.2).
  - intros cv cp cr dp. apply Hindep.
Qed.
End IdempotenceFacts.

Section WrapFacts.
Context {N : Type} `{PyNum N} (M : MathModule N).

Lemma last_lookup_length {A} (a d : A) (l : list A) (x : A) :
  (a :: l) !! length l = Some x -> List.last (a :: l) d = x.
Proof.
  revert a. induction l as [|b l IH]; intros a.
  - cbn. congruence.
  - intros Hx. change (List.last (a :: b :: l) d) with (List.last (b :: l) d).
    by apply IH.
Qed.

Lemma py_get_last {A} (a : A) (l : list A) :
  py_get (a :: l) (-1) = Ok (List.last (a :: l) a).
Proof.
  destruct (py_get_neg (a :: l) (-1)) as (x & Hg & Hx);
    [rewrite length_cons; lia|].
  rewrite Hg. f_equal. symmetry. apply last_lookup_length.
  rewrite <- Hx. f_equal. rewrite length_cons. lia.
Qed.

Lemma segment_in_obs_embedded (self : Vision N) (a b : Vector N) :
  segment_in_obs self (a, b) = true
  <-> exists seg, seg ∈ obs_segs self
        /\ point_on_lineseg seg.1 seg.2 a = true
        /\ point_on_lineseg seg.1 seg.2 b = true.
Proof.
  unfold segment_in_obs. rewrite existsb_exists.
  unfold sub_segment. cbn.
  split; intros (seg & Hin & Hseg); exists seg.
  - apply list_elem_of_In in Hin. by apply andb_true_iff in Hseg.
  - apply list_elem_of_In in Hin. split; [done|]. by apply andb_true_iff.
Qed.

(** With fewer than two vertices the fix-up cannot read the vertices it
    compares: the index raises. *)
Lemma wrap_fix_short (self : Vision N) (pts : list (Vector N)) :
  (length pts < 2)%nat -> wrap_fix self pts = Raise IndexError.
Proof.
  destruct pts as [|a [|b pts]]; cbn; [done|done|lia].
Qed.


End WrapFacts.

Section VisibilityFacts.
Context {N : Type} `{PyNumOrder N} (M : MathModule N).

(** [check_visibility] and the filter of line 109, as they are written,
    over the list [near_segs] that line 106 is to bind: a candidate point is
    kept exactly when it is a boundary point or within the radius, and every
    segment of [near_segs] that meets its sight line ends in it. *)
Lemma direct_visible_spec (self : Vision N) (eye : Vector N) (radius : N)
    (boundary : Polygon N) (near_segs : list (Segment N)) (p : Vector N) :
  p ∈ direct_visible M self eye radius boundary near_segs
  <-> p ∈ obs_points self ++ points boundary
      /\ (p ∈ points boundary
          \/ nle (get_length_squared (vsub eye p)) (radius_squared radius)
             = true)
      /\ forall seg : Segment N,
           seg ∈ near_segs ->
           check_intersect_lineseg_lineseg M eye p seg.1 seg.2 = true ->
           seg.1 = p \/ seg.2 = p.
Proof.
  unfold direct_visible.
  rewrite list_elem_of_In, filter_In, <- list_elem_of_In, set_iter_elem.
  unfold check_visibility. rewrite ngt_nle.
  split.
  - intros [Hp Hvis]. split; [done|]. split.
    + destruct (nle _ _); [by right|]. left.
      destruct (bool_decide (p ∈ points boundary)) eqn:Hb;
        [by apply bool_decide_eq_true in Hb|done].
    + intros seg Hseg Hint.
      destruct (negb (nle _ _) && _); [done|].
      rewrite forallb_forall in Hvis.
      apply list_elem_of_In, Hvis in Hseg. rewrite Hint in Hseg.
      cbn in Hseg. apply negb_true_iff, andb_false_iff in Hseg.
      destruct Hseg as [Hs|Hs]; apply bool_decide_eq_false in Hs;
        [left|right]; by apply dec_stable.
  - intros (Hp & Hnear & Hblock). split; [done|].
    assert (negb (nle (get_length_squared (vsub eye p))
                    (radius_squared radius))
            && negb (bool_decide (p ∈ points boundary)) = false) as ->.
    { destruct Hnear as [Hb| ->]; [|done].
      rewrite (bool_decide_eq_true_2 _ Hb). by destruct (nle _ _). }
    apply forallb_forall. intros seg Hseg%list_elem_of_In.
    destruct (check_intersect_lineseg_lineseg M eye p seg.1 seg.2)
      eqn:Hint; [|done].
    cbn. apply negb_true_iff, andb_false_iff.
    destruct (Hblock seg Hseg Hint) as [Heq|Heq]; [left|right];
      rewrite bool_decide_eq_false; by intros ?.
Qed.
End VisibilityFacts.

(** ** Exact rational arithmetic satisfies the laws *)

Section QcFacts.
Local Open Scope Qc_scope.

Lemma this_plus (a b : Qc) : (this (a + b) == this a + this b)%Q.
Proof. apply Qred_correct. Qed.
Lemma this_mult (a b : Qc) : (this (a * b) == this a * this b)%Q.
Proof. apply Qred_correct. Qed.
Lemma this_opp (a : Qc) : (this (- a) == - this a)%Q.
Proof. apply Qred_correct. Qed.
Lemma this_minus (a b : Qc) : (this (a - b) == this a - this b)%Q.
Proof. unfold Qcminus. rewrite this_plus, this_opp. reflexivity. Qed.
Lemma Qc_eq_this (a b : Qc) : a = b <-> (this a == this b)%Q.
Proof. split; [by intros ->|apply Qc_is_canon]. Qed.
End QcFacts.

(** Goals and hypotheses about [Qc] become goals about [Q], where the
    arithmetic solvers work. *)
Ltac qc2q :=
  unfold Qcle, Qclt in *;
  repeat match goal with
  | H : @eq Qc _ _ |- _ => apply Qc_eq_this in H
  | H : ~ @eq Qc _ _ |- _ => rewrite Qc_eq_this in H
  end;
  try match goal with
  | |- @eq Qc _ _ => apply Qc_eq_this
  | |- ~ @eq Qc _ _ => rewrite Qc_eq_this
  end;
  repeat (rewrite this_plus in * || rewrite this_mult in *
          || rewrite this_minus in * || rewrite this_opp in *);
  change (this 0%Qc) with 0%Q in *; change (this 1%Qc) with 1%Q in *.

Section QcLaws.
Local Open Scope Qc_scope.

Lemma Qc_PyNumOrder : PyNumOrder Qc.
Proof.
  split.
  - intros a b. cbn. destruct (decide (a < b)) as [Hlt|Hnlt].
    + rewrite bool_decide_eq_true_2 by done.
      rewrite bool_decide_eq_false_2; [done|]. by apply Qclt_not_le.
    + rewrite bool_decide_eq_false_2 by done.
      rewrite bool_decide_eq_true_2; [done|]. by apply Qcnot_lt_le.
  - intros a. cbn. apply bool_decide_eq_true_2, Qcle_refl.
Qed.

Lemma Qc_PyNumRing : PyNumRing Qc.
Proof.
  split.
  - exact Qcrt.
  - intros a. cbn. apply bool_decide_eq_true_2. qc2q. nra.
Qed.
End QcLaws.

Section QcTotal.
Local Open Scope Qc_scope.

Lemma Qc_PyNumTotal : PyNumTotal Qc.
Proof.
  split; cbn.
  - intros a b Hab. apply bool_decide_eq_false in Hab.
    apply bool_decide_eq_true. apply Qcnot_le_lt in Hab.
    by apply Qclt_le_weak.
  - intros a b c Hab Hbc. apply bool_decide_eq_true in Hab, Hbc.
    apply bool_decide_eq_true. by eapply Qcle_trans.
  - by rewrite bool_decide_eq_false_2.
  - by apply bool_decide_eq_true.
Qed.
End QcTotal.

Lemma py_get_0_head {A} (l : list A) :
  py_get l 0 = match head l with Some x => Ok x | None => Raise IndexError end.
Proof.
  destruct l as [|a l]; [apply py_get_empty|].
  destruct (py_get_nonneg (a :: l) 0) as (x & -> & Hx);
    [rewrite length_cons; lia|].
  cbn in Hx. by injection Hx as <-.
Qed.

Section SweepSuffix.
Context {N : Type} `{PyNum N} (M : MathModule N).
Variables (self : Vision N) (eye : Vector N) (radius : N)
          (boundary : Polygon N) (near_segs : list (Segment N)).

Lemma remove_first_drop {A} `{EqDecision A} (a : A) (l l' : list A) :
  remove_first a l = Some l' ->
  forall (k : nat) (x : A), x ∈ drop k l' -> x ∈ drop k l.
Proof.
  revert l'. induction l as [|b l IH]; intros l'; [done|]. cbn.
  destruct (decide (b = a)) as [->|Hne].
  - intros [= <-] [|k] x Hx; cbn.
    + by apply list_elem_of_further.
    + rewrite <- (take_drop 1 (drop k l)), drop_drop.
      apply elem_of_app. right. by replace (k + 1)%nat with (S k) by lia.
  - destruct (remove_first a l) as [l''|]; [|done].
    intros [= <-] [|k] x Hx; cbn in *.
    + apply elem_of_cons in Hx as [->|Hx]; [apply list_elem_of_here|].
      apply list_elem_of_further. by apply (IH l'' eq_refl 0%nat).
    + by apply (IH l'' eq_refl k).
Qed.

Lemma drop_py_insert_after (i : Z) (x : Vector N) (pts : list (Vector N))
    (k : nat) :
  0 <= i <= Z.of_nat (length pts) ->
  drop (Z.to_nat i + 1 + k) (py_insert i x pts) = drop (Z.to_nat i + k) pts.
Proof.
  intros Hi. rewrite py_insert_nonneg by done.
  rewrite drop_app_ge by (rewrite length_take; lia).
  rewrite length_take.
  replace (Z.to_nat i + 1 + k - Z.to_nat i `min` length pts)%nat
    with (S k) by lia.
  cbn. rewrite drop_drop. done.
Qed.

(** The vertices still ahead of the index after a pass were ahead of (or
    under) the index before it: the sweep only ever visits vertices of the
    list it started from. *)
Lemma sweep_step_suffix (pts : list (Vector N)) (i : Z) s :
  0 <= i < Z.of_nat (length pts) ->
  sweep_step M self eye radius boundary near_segs pts i = Ok s ->
  0 <= step_index s
  /\ forall c, c ∈ drop (Z.to_nat (step_index s)) (step_points s) ->
       c ∈ drop (Z.to_nat i) pts.
Proof.
  intros Hi. unfold sweep_step.
  destruct (py_get pts (i - 1)) as [p| |]; [|done|done].
  destruct (py_get pts i) as [c| |]; [|done|done].
  destruct (py_get pts (_ `mod` _)) as [n| |]; [|done|done].
  cbn [mbind PyResult_bind].
  assert (Hnext : forall x, x ∈ drop (Z.to_nat (i + 1)) pts ->
            x ∈ drop (Z.to_nat i) pts).
  { intros x Hx. replace (Z.to_nat (i + 1)) with (Z.to_nat i + 1)%nat in Hx
      by lia.
    rewrite <- drop_drop in Hx. rewrite <- (take_drop 1 (drop _ pts)).
    apply elem_of_app. by right. }
  destruct (_ ++ _) as [|h hits].
  { intros [= <-]. cbn. split; [lia|done]. }
  destruct (py_get (closest_points _ _) 0) as [closest| |]; [|done|done].
  cbn [mbind PyResult_bind].
  set (x := clamp _ _ _ _).
  destruct (segment_in_obs self (p, c)); cbn [negb andb].
  - destruct (segment_in_obs self (c, n)); cbn [negb andb];
      intros [= <-]; cbn; (split; [lia|]); [done|].
    intros y Hy. apply Hnext.
    replace (Z.to_nat (i + 1 + 1)) with (Z.to_nat (i + 1) + 1 + 0)%nat in Hy
      by lia.
    rewrite drop_py_insert_after in Hy by lia.
    by rewrite Nat.add_0_r in Hy.
  - destruct (py_get _ (i + 1 - 3)) as [a| |]; [|done|done].
    destruct (py_get _ (i + 1 - 1)) as [b| |]; [|done|done].
    cbn [mbind PyResult_bind].
    destruct (segment_in_obs self (a, b)).
    + destruct (py_get _ (i + 1 - 2)) as [w| |]; [|done|done].
      cbn [mbind PyResult_bind]. unfold py_remove.
      destruct (remove_first _ _) as [pts2|] eqn:Hrm; [|done].
      intros [= <-]. cbn. split; [lia|].
      intros y Hy. eapply remove_first_drop in Hy; [|exact Hrm].
      replace (Z.to_nat (i + 1 - 1 + 1)) with (Z.to_nat i + 1 + 0)%nat in Hy
        by lia.
      rewrite drop_py_insert_after in Hy by lia.
      by rewrite Nat.add_0_r in Hy.
    + intros [= <-]. cbn. split; [lia|].
      intros y Hy. apply Hnext.
      replace (Z.to_nat (i + 1 + 1)) with (Z.to_nat i + 1 + 1)%nat in Hy
        by lia.
      rewrite drop_py_insert_after in Hy by lia.
      by replace (Z.to_nat (i + 1)) with (Z.to_nat i + 1)%nat by lia.
Qed.
End SweepSuffix.

(** ** The model's angular sort *)

Section SortAround.
Context {N : Type} `{PyNum N} `{PyNumDiv N}.

Lemma insert_by_angle_Permutation eye a (l : list (Vector N)) :
  Geometry.insert_by_angle eye a l ≡ₚ a :: l.
Proof.
  induction l as [|b l IH]; cbn; [done|].
  destruct (Geometry.angle_lt _ _); [|done]. rewrite IH.
  apply Permutation_swap.
Qed.

Lemma sort_around_Permutation eye (l : list (Vector N)) :
  Geometry.sort_around eye l ≡ₚ l.
Proof.
  induction l as [|a l IH]; [done|].
  change (Geometry.sort_around eye (a :: l))
    with (Geometry.insert_by_angle eye a (Geometry.sort_around eye l)).
  by rewrite insert_by_angle_Permutation, IH.
Qed.
End SortAround.

(** * More on the sweep, [calculate] and the cache *)

(** ** The shape of the sweep's result *)

Section PyListFacts3.
Context {A : Type} `{EqDecision A}.

Lemma elem_of_py_insert (i : Z) (a x : A) (l : list A) :
  x ∈ py_insert i a l <-> x = a \/ x ∈ l.
Proof.
  unfold py_insert. set (j := Z.to_nat _).
  rewrite elem_of_app, elem_of_cons.
  rewrite <- (take_drop j l) at 3. rewrite elem_of_app. tauto.
Qed.

Lemma py_remove_Ok_elem (a x : A) (l l' : list A) :
  py_remove a l = Ok l' -> x ∈ l' -> x ∈ l.
Proof.
  unfold py_remove. destruct (remove_first a l) as [l''|] eqn:E; [|done].
  intros [= <-] Hx. apply remove_first_sublist in E.
  by eapply elem_of_sublist.
Qed.
End PyListFacts3.

Section SweepShape.
Context {N : Type} `{PyNum N} (M : MathModule N).
Variables (self : Vision N) (eye : Vector N) (radius : N)
          (boundary : Polygon N) (near_segs : list (Segment N)).

Local Abbreviation step := (sweep_step M self eye radius boundary near_segs).
Local Abbreviation loop := (sweep_loop M self eye radius boundary near_segs).
Local Abbreviation hit := (sweep_hit M eye radius boundary near_segs).

(** A pass leaves the list as long as it was or one vertex longer, and a
    vertex it did not find in the list is the one it inserted. *)
Lemma sweep_step_shape (pts : list (Vector N)) (i : Z) (s : SweepStep) :
  0 <= i < Z.of_nat (length pts) ->
  step pts i = Ok s ->
  (length pts <= length (step_points s)
   <= length pts + length (option_list (step_inserted s)))%nat
  /\ (forall x, x ∈ step_points s -> x ∈ pts \/ step_inserted s = Some x)
  /\ (forall x, step_inserted s = Some x ->
        exists c, pts !! Z.to_nat i = Some c /\ hit c = Some x).
Proof.
  intros Hi. unfold sweep_step.
  destruct (py_get_in_range pts (i - 1)) as (p & -> & _); [lia|].
  destruct (py_get_nonneg pts i) as (c & -> & Hc); [lia|].
  destruct (py_get_nonneg pts ((i + 1) `mod` Z.of_nat (length pts)))
    as (n & -> & _); [apply Z.mod_pos_bound; lia|].
  cbn.
  destruct (_ ++ _) as [|x xs] eqn:Hhits.
  { intros [= <-]. cbn. split_and!; [lia|lia|by left|done]. }
  destruct (py_get_nonneg (closest_points (x :: xs) eye) 0)
    as (closest & -> & Hclosest).
  { unfold closest_points. rewrite length_py_sorted. cbn. lia. }
  cbn.
  assert (Hhit : hit c = Some (clamp M eye radius closest)).
  { unfold sweep_hit. rewrite Hhits, head_lookup.
    change (Z.to_nat 0) with 0%nat in Hclosest. by rewrite Hclosest. }
  set (X := clamp _ _ _ _) in *.
  assert (Hins : forall y, Some X = Some y ->
            exists c, pts !! Z.to_nat i = Some c /\ hit c = Some y)
    by (intros y [= <-]; eauto).
  destruct (segment_in_obs self (p, c)); cbn.
  - destruct (segment_in_obs self (c, n)); cbn.
    + intros [= <-]. cbn. split_and!; [lia|lia|by left|done].
    + intros [= <-]. cbn. rewrite length_py_insert.
      split_and!; [lia|lia| |done].
      intros y [->|Hy]%elem_of_py_insert; [by right|by left].
  - pose proof (length_py_insert i X pts) as Hlen.
    destruct (py_get_in_range (py_insert i X pts) (i + 1 - 3))
      as (a & -> & _); [lia|].
    destruct (py_get_in_range (py_insert i X pts) (i + 1 - 1))
      as (b & -> & _); [lia|].
    cbn. destruct (segment_in_obs self (a, b)).
    + destruct (py_get_in_range (py_insert i X pts) (i + 1 - 2))
        as (wrong & -> & Hwrong); [lia|].
      cbn. destruct (py_remove_elem _ _ Hwrong) as (pts2 & Hrem & Hlen2).
      rewrite Hrem. cbn. intros [= <-]. cbn. split_and!; [lia|lia| |done].
      intros y Hy. eapply py_remove_Ok_elem in Hy; [|exact Hrem].
      apply elem_of_py_insert in Hy as [->|Hy]; [by right|by left].
    + intros [= <-]. cbn. split_and!; [lia|lia| |done].
      intros y [->|Hy]%elem_of_py_insert; [by right|by left].
Qed.

Lemma sweep_loop_shape (fuel : nat) :
  forall (pts : list (Vector N)) (i : Z)
         (inserted pts' inserted' : list (Vector N)),
  0 <= i <= Z.of_nat (length pts) ->
  loop fuel pts i inserted = Ok (pts', inserted') ->
  exists new,
    inserted' = inserted ++ new
    /\ (length pts <= length pts' <= length pts + length new)%nat
    /\ Z.of_nat (length new) <= Z.of_nat (length pts) - i
    /\ (forall x, x ∈ pts' -> x ∈ pts \/ x ∈ new)
    /\ (forall x, x ∈ new ->
          exists c, c ∈ drop (Z.to_nat i) pts /\ hit c = Some x).
Proof.
  induction fuel as [|fuel IH]; intros pts i inserted pts' inserted' Hi.
  - cbn. case_decide; [done|]. intros [= <- <-]. exists [].
    rewrite app_nil_r. cbn.
    split_and!; [done|lia|lia|lia|by left|by intros x ?%elem_of_nil].
  - cbn [sweep_loop]. case_decide as Hlt.
    2:{ intros [= <- <-]. exists []. rewrite app_nil_r. cbn.
        split_and!; [done|lia|lia|lia|by left|by intros x ?%elem_of_nil]. }
    destruct (sweep_step_progress M self eye radius boundary near_segs pts i)
      as (s & Hs & Hidx & Hm); [lia|].
    rewrite Hs. cbn [mbind PyResult_bind].
    destruct (sweep_step_shape pts i s) as (Hlen & Helem & Hins); [lia|done|].
    destruct (sweep_step_suffix M self eye radius boundary near_segs pts i s)
      as (_ & Hsuffix); [lia|done|].
    intros Hloop.
    apply IH in Hloop as (new & -> & Hlen' & Hnew & Helem' & Hins'); [|lia].
    exists (option_list (step_inserted s) ++ new).
    rewrite app_assoc, length_app.
    split_and!; [done|lia|lia| | |].
    + destruct (step_inserted s); cbn in *; lia.
    + intros x Hx. rewrite elem_of_app.
      destruct (Helem' x Hx) as [Hx'|?]; [|by auto].
      destruct (Helem x Hx') as [?|Hx'']; [by auto|].
      right. left. rewrite Hx''. cbn. apply list_elem_of_here.
    + intros x [Hx|Hx]%elem_of_app.
      * destruct (step_inserted s) as [y|] eqn:Hy;
          [|by apply elem_of_nil in Hx].
        apply list_elem_of_singleton in Hx as ->.
        destruct (Hins y eq_refl) as (c & Hc & Hhit). exists c.
        split; [|done]. rewrite (drop_S _ _ _ Hc). apply list_elem_of_here.
      * destruct (Hins' x Hx) as (c & Hc & Hhit). exists c. by auto.
Qed.

(** X1.  The sweep never shortens the vertex list: it returns at least the
    vertices it started from in number, at most one more for each vertex it
    inserted, and it inserts at most one vertex per vertex of the list it
    started from. *)
Theorem sweep_length_bounds (pts pts' inserted : list (Vector N)) :
  sweep M self eye radius boundary near_segs pts = Ok (pts', inserted) ->
  (length pts <= length pts' <= length pts + length inserted)%nat
  /\ (length inserted <= length pts)%nat.
Proof.
  intros Hs.
  apply sweep_loop_shape in Hs as (new & Hnew & ? & ? & _ & _); [|lia].
  cbn in Hnew. subst new. lia.
Qed.

(** X2.  The sweep invents no vertex: every vertex of the list it returns
    is a vertex of the list it started from or one of the vertices it
    inserted, and every vertex it inserted is the nearest hit, pulled back
    to the radius, of the ray through a vertex of the list it started
    from. *)
Theorem sweep_vertices_provenance (pts pts' inserted : list (Vector N)) :
  sweep M self eye radius boundary near_segs pts = Ok (pts', inserted) ->
  (forall x, x ∈ pts' -> x ∈ pts \/ x ∈ inserted)
  /\ (forall x, x ∈ inserted -> exists c, c ∈ pts /\ hit c = Some x).
Proof.
  intros Hs.
  apply sweep_loop_shape in Hs as (new & Hnew & _ & _ & Helem & Hins);
    [|lia].
  cbn in Hnew. subst new. split; [done|].
  intros x Hx. destruct (Hins x Hx) as (c & Hc & ?). by exists c.
Qed.
End SweepShape.

Section ClampFacts.
Context {N : Type} `{PyNum N} (M : MathModule N).
Variables (self : Vision N) (eye : Vector N) (radius : N)
          (boundary : Polygon N) (near_segs : list (Segment N)).


End ClampFacts.

Section SweepWithoutObstructors.
Context {N : Type} `{PyNum N} (M : MathModule N).
Variables (self : Vision N) (eye : Vector N) (radius : N)
          (boundary : Polygon N) (near_segs : list (Segment N)).

Local Abbreviation hit := (sweep_hit M eye radius boundary near_segs).
Local Abbreviation with_hit :=
  (fun c : Vector N => option_list (hit c) ++ [c]).

Lemma py_get_app_length {A} (l1 l2 : list A) (a : A) :
  py_get (l1 ++ a :: l2) (Z.of_nat (length l1)) = Ok a.
Proof.
  destruct (py_get_nonneg (l1 ++ a :: l2) (Z.of_nat (length l1)))
    as (x & -> & Hx); [rewrite length_app, length_cons; lia|].
  rewrite Nat2Z.id, list_lookup_middle in Hx by done. by injection Hx as ->.
Qed.

Lemma sweep_loop_without_obstructors (fuel : nat) :
  obs_segs self = [] ->
  forall (todo done inserted : list (Vector N)),
  (length todo < fuel)%nat ->
  sweep_loop M self eye radius boundary near_segs fuel (done ++ todo)
    (Z.of_nat (length done)) inserted
  = Ok (done ++ (todo ≫= with_hit), inserted ++ omap hit todo).
Proof.
  intros Hobs.
  assert (Hsio : forall seg, segment_in_obs self seg = false)
    by (intros seg; unfold segment_in_obs; by rewrite Hobs).
  induction fuel as [|fuel IH]; intros todo done inserted Hfuel; [lia|].
  cbn [sweep_loop]. rewrite length_app.
  destruct todo as [|c todo].
  { rewrite decide_False by (cbn; lia). cbn. by rewrite !app_nil_r. }
  rewrite decide_True by (cbn; lia).
  unfold sweep_step.
  destruct (py_get_in_range (done ++ c :: todo) (Z.of_nat (length done) - 1))
    as (p & -> & _); [rewrite length_app, length_cons; lia|].
  rewrite py_get_app_length.
  destruct (py_get_nonneg (done ++ c :: todo)
    ((Z.of_nat (length done) + 1) `mod` Z.of_nat (length (done ++ c :: todo))))
    as (n & -> & _).
  { apply Z.mod_pos_bound. rewrite length_app, length_cons. lia. }
  cbn [mbind PyResult_bind].
  unfold sweep_hit in IH |- *. cbn [mbind list_bind omap list_omap].
  unfold sweep_hit.
  destruct (_ ++ _) as [|x xs] eqn:Hhits.
  - cbn [mbind PyResult_bind step_points step_index step_inserted
         option_list closest_points py_sorted foldr head fmap option_fmap
         option_map app].
    rewrite app_nil_r.
    specialize (IH todo (done ++ [c]) inserted).
    rewrite length_app, <- app_assoc in IH. cbn [length app] in IH.
    replace (Z.of_nat (length done) + 1)
      with (Z.of_nat (length done + 1)) by lia.
    rewrite IH by (cbn in Hfuel; lia). by rewrite <- app_assoc.
  - rewrite py_get_0_head.
    destruct (head (closest_points (x :: xs) eye)) as [closest|] eqn:Hhead.
    2:{ apply head_None in Hhead.
        apply (f_equal length) in Hhead. unfold closest_points in Hhead.
        rewrite length_py_sorted in Hhead. done. }
    cbn [mbind PyResult_bind fmap option_fmap option_map option_list app].
    rewrite !Hsio. cbn [negb].
    set (X := clamp M eye radius closest).
    assert (Hins : py_insert (Z.of_nat (length done)) X (done ++ c :: todo)
                   = done ++ X :: c :: todo).
    { rewrite py_insert_nonneg by (rewrite length_app, length_cons; lia).
      by rewrite Nat2Z.id, take_app_length, drop_app_length. }
    rewrite Hins.
    destruct (py_get_in_range (done ++ X :: c :: todo)
      (Z.of_nat (length done) + 1 - 3)) as (a & -> & _);
      [rewrite length_app, !length_cons; lia|].
    destruct (py_get_in_range (done ++ X :: c :: todo)
      (Z.of_nat (length done) + 1 - 1)) as (b & -> & _);
      [rewrite length_app, !length_cons; lia|].
    cbn [mbind PyResult_bind]. rewrite Hsio.
    cbn [mbind PyResult_bind step_points step_index step_inserted
         option_list].
    specialize (IH todo (done ++ [X; c]) (inserted ++ [X])).
    rewrite length_app, <- app_assoc in IH. cbn [length app] in IH.
    replace (Z.of_nat (length done) + 1 + 1)
      with (Z.of_nat (length done + 2)) by lia.
    change (option_list (Some X)) with [X].
    rewrite IH by (cbn in Hfuel; lia). by rewrite <- !app_assoc.
Qed.

(** On an object without obstructor segments nothing is ever "in obs", so
    every pass of the sweep whose ray meets something takes the first case,
    without the correction: the sweep returns the list it started from
    with, in front of each such vertex, the nearest hit of its ray pulled
    back to the radius. *)
Lemma sweep_without_obstructors (pts : list (Vector N)) :
  obs_segs self = [] ->
  sweep M self eye radius boundary near_segs pts
  = Ok (pts ≫= with_hit, omap hit pts).
Proof.
  intros Hobs.
  apply (sweep_loop_without_obstructors (S (length pts)) Hobs pts [] []).
  lia.
Qed.
End SweepWithoutObstructors.

Section SweepAlongObstructors.
Context {N : Type} `{PyNum N} (M : MathModule N).
Variables (self : Vision N) (eye : Vector N) (radius : N)
          (boundary : Polygon N) (near_segs : list (Segment N)).

Lemma sweep_loop_along_obstructors (a : Vector N) (rest : list (Vector N))
    (fuel : nat) :
  let pts := a :: rest in
  Forall (fun seg => segment_in_obs self seg = true)
    (zip (List.last pts a :: pts) pts) ->
  forall (i : Z) (inserted : list (Vector N)),
  0 <= i ->
  Z.of_nat (length pts) - i < Z.of_nat fuel ->
  sweep_loop M self eye radius boundary near_segs fuel pts i inserted
  = Ok (pts, inserted).
Proof.
  cbv zeta. set (pts := a :: rest). intros Hall.
  assert (Hpair : forall (k : nat) p c,
            (List.last pts a :: pts) !! k = Some p -> pts !! k = Some c ->
            segment_in_obs self (p, c) = true).
  { intros k p c Hp Hc. rewrite list.Forall_lookup in Hall.
    apply (Hall k). apply lookup_zip_with_Some. by exists p, c. }
  assert (Hlast : pts !! length rest = Some (List.last pts a)).
  { destruct (lookup_lt_is_Some_2 pts (length rest)) as [y Hy];
      [cbn; lia|].
    rewrite Hy. f_equal. symmetry. by apply last_lookup_length. }
  induction fuel as [|fuel IH]; intros i inserted Hi Hfuel.
  - cbn [sweep_loop]. rewrite decide_False by lia. done.
  - cbn [sweep_loop].
    destruct (decide (i < Z.of_nat (length pts))) as [Hlt|]; [|done].
    unfold sweep_step.
    assert (Hp : exists p, py_get pts (i - 1) = Ok p
                   /\ (List.last pts a :: pts) !! Z.to_nat i = Some p).
    { destruct (decide (i = 0)) as [->|Hne].
      - exists (List.last pts a). split; [apply py_get_last|done].
      - destruct (py_get_nonneg pts (i - 1)) as (p & Hp & Hl); [lia|].
        exists p. split; [done|].
        replace (Z.to_nat i) with (S (Z.to_nat (i - 1))) by lia. done. }
    destruct Hp as (p & -> & Hp).
    destruct (py_get_nonneg pts i) as (c & -> & Hc); [lia|].
    destruct (py_get_nonneg pts ((i + 1) `mod` Z.of_nat (length pts)))
      as (n & -> & Hn); [apply Z.mod_pos_bound; lia|].
    cbn [mbind PyResult_bind].
    assert (Hpc : segment_in_obs self (p, c) = true) by by eapply Hpair.
    assert (Hcn : segment_in_obs self (c, n) = true).
    { eapply Hpair; [|exact Hn].
      destruct (decide (i + 1 < Z.of_nat (length pts))) as [Hin|Hout].
      - rewrite Z.mod_small by lia.
        replace (Z.to_nat (i + 1)) with (S (Z.to_nat i)) by lia. done.
      - replace (i + 1) with (Z.of_nat (length pts)) by lia.
        rewrite Z.mod_same by (cbn; lia). cbn [Z.to_nat lookup list_lookup].
        f_equal. replace (Z.to_nat i) with (length rest) in Hc
          by (cbn [length pts] in *; lia).
        rewrite Hlast in Hc. by injection Hc. }
    destruct (_ ++ _) as [|x xs].
    + cbn [mbind PyResult_bind step_points step_index step_inserted
           option_list].
      rewrite app_nil_r. apply IH; lia.
    + destruct (py_get_nonneg (closest_points (x :: xs) eye) 0)
        as (closest & -> & _).
      { unfold closest_points. rewrite length_py_sorted. cbn. lia. }
      cbn [mbind PyResult_bind]. rewrite Hpc, Hcn.
      cbn [negb andb mbind PyResult_bind step_points step_index
           step_inserted option_list].
      rewrite app_nil_r. apply IH; lia.
Qed.

(** X3.  When every vertex of the list and its predecessor in the cycle
    (the last vertex for the first one) lie together on one obstructor
    segment, as the corners of a closed room do, no pass of the sweep
    inserts anything, whatever the rays meet: the sweep returns the list
    it was given. *)
Theorem sweep_along_obstructors (pts : list (Vector N)) :
  Forall (fun seg => segment_in_obs self seg = true)
    (zip (option_list (list.last pts) ++ pts) pts) ->
  sweep M self eye radius boundary near_segs pts = Ok (pts, []).
Proof.
  destruct pts as [|a rest]; [done|]. intros Hall.
  apply (sweep_loop_along_obstructors a rest); [|lia|lia].
  assert (Heq : list.last (a :: rest) = Some (List.last (a :: rest) a)).
  { rewrite last_lookup. cbn [length Nat.pred].
    destruct (lookup_lt_is_Some_2 (a :: rest) (length rest)) as [y Hy];
      [cbn; lia|].
    rewrite Hy. f_equal. symmetry. by apply last_lookup_length. }
  rewrite Heq in Hall. exact Hall.
Qed.
End SweepAlongObstructors.
(** ** The outcome of [calculate] *)

Section Outcome.
Context {N : Type} `{PyNum N} (M : MathModule N).
Variables (self : Vision N) (eye : Vector N) (radius : N)
          (boundary : Polygon N).

Lemma boundary_edges_empty :
  points boundary = [] -> boundary_edges boundary = Raise IndexError.
Proof. intros Hb. unfold boundary_edges. by rewrite Hb, py_get_empty. Qed.

Lemma boundary_edges_Ok :
  points boundary <> [] ->
  exists last_point first_point,
    List.last (points boundary) first_point = last_point
    /\ head (points boundary) = Some first_point
    /\ boundary_edges boundary
       = Ok (consecutive_pairs (points boundary)
             ++ [(last_point, first_point)]).
Proof.
  intros Hb. unfold boundary_edges.
  destruct (points boundary) as [|a l]; [done|].
  rewrite py_get_last, py_get_0_head. cbn [head mbind PyResult_bind].
  by exists (List.last (a :: l) a), a.
Qed.

Lemma wrap_fix_long (pts : list (Vector N)) :
  (2 <= length pts)%nat ->
  exists pts', wrap_fix self pts = Ok pts' /\ pts' ≡ₚ pts.
Proof.
  intros Hlen. unfold wrap_fix.
  destruct (py_get_in_range pts (-1)) as (a & -> & _); [lia|].
  destruct (py_get_nonneg pts 1) as (b & -> & _); [lia|].
  cbn [mbind PyResult_bind].
  destruct (segment_in_obs self (a, b)); eexists; (split; [done|]); [|done].
  destruct pts as [|x [|y pts]]; [done|done|]. cbn. apply Permutation_swap.
Qed.

(** The three ways [calculate] can end: at line 112 on a boundary without
    points, at line 186 on a swept list too short for the fix-up, or with a
    polygon. *)
Lemma calculate_with_outcome (near_segs : list (Segment N)) :
  let r := (calculate_with M self eye radius boundary near_segs).2 in
  (points boundary = [] /\ r = Raise IndexError)
  \/ (points boundary <> []
      /\ exists edges pts,
           boundary_edges boundary = Ok edges
           /\ swept_vertices M self eye radius boundary near_segs
                (direct_visible M self eye radius boundary near_segs)
                (intersect_linesegs_linesegs M near_segs edges)
              = Ok pts
           /\ (((length pts < 2)%nat /\ r = Raise IndexError)
               \/ ((2 <= length pts)%nat
                   /\ exists pts',
                        r = Ok (mkPolygon pts') /\ pts' ≡ₚ pts))).
Proof.
  cbv zeta. unfold calculate_with, candidates.
  destruct (decide (points boundary = [])) as [Hb|Hb].
  { left. split; [done|]. by rewrite boundary_edges_empty. }
  right. split; [done|].
  destruct (boundary_edges_Ok Hb) as (l & f & _ & _ & ->).
  cbn [mbind PyResult_bind mret PyResult_ret].
  eexists.
  match goal with
  | |- context [swept_vertices _ _ _ _ _ _ ?v ?b] =>
      destruct (swept_vertices_Ok M self eye radius boundary near_segs v b)
        as (pts & Hpts)
  end.
  exists pts. split; [done|]. split; [done|]. rewrite Hpts.
  cbn [mbind PyResult_bind].
  destruct (decide (length pts < 2)%nat) as [Hlen|Hlen].
  - left. split; [done|]. by rewrite wrap_fix_short.
  - right. split; [lia|].
    destruct (wrap_fix_long pts) as (pts' & -> & Hperm); [lia|].
    by exists pts'.
Qed.

(** The two ways [calculate] gets past line 106 or not. *)
Lemma calculate_outcome :
  let r := (calculate M self eye radius boundary).2 in
  (obs_segs self <> [] /\ r = Raise NameError)
  \/ (obs_segs self = []
      /\ r = (calculate_with M self eye radius boundary []).2).
Proof.
  cbv zeta.
  destruct (calculate_cases M self eye radius boundary) as [[? ->]|[? ->]];
    [by right|by left].
Qed.

(** X4.  [calculate] raises nothing but [NameError] and [IndexError]: the
    [remove] calls of the crossing filter and of the sweep always find
    their element, and no index of the sweep is out of range.  It raises
    [NameError] at line 104 exactly when the object has an obstructor
    segment; without one it raises [IndexError] at line 112 when the
    boundary has no points, and at line 186 when the swept list has fewer
    than two vertices. *)
Theorem calculate_raises_NameError_or_IndexError (e : PyExn) :
  (calculate M self eye radius boundary).2 = Raise e ->
  (obs_segs self <> [] /\ e = NameError)
  \/ (obs_segs self = [] /\ e = IndexError
      /\ (points boundary = []
          \/ exists edges pts,
               boundary_edges boundary = Ok edges
               /\ swept_vertices M self eye radius boundary []
                    (direct_visible M self eye radius boundary [])
                    (intersect_linesegs_linesegs M [] edges)
                  = Ok pts
               /\ (length pts < 2)%nat)).
Proof.
  intros Hr.
  destruct calculate_outcome as [[Hobs Hr']|[Hobs Hr']]; rewrite Hr in Hr'.
  { left. split; [done|]. by injection Hr'. }
  right. split; [done|]. symmetry in Hr'.
  destruct (calculate_with_outcome [])
    as [[Hb Hr'']|(Hb & edges & pts & He & Hp
                  & [[Hlen Hr'']|(_ & pts' & Hr'' & _)])];
    rewrite Hr' in Hr''; try done; injection Hr'' as ->; split; try done.
  - by left.
  - right. by exists edges, pts.
Qed.

(** X5.  A polygon that [calculate] returns has at least two vertices and
    is the polygon left in the cache; the boundary it was computed for has
    at least one point. *)
Theorem calculate_returns_two_vertices (poly : Polygon N) :
  (calculate M self eye radius boundary).2 = Ok poly ->
  (2 <= length (points poly))%nat
  /\ points boundary <> []
  /\ cached_vision (calculate M self eye radius boundary).1 = Some poly.
Proof.
  intros Hr.
  pose proof (calculate_state M self eye radius boundary) as Hstate.
  cbv zeta in Hstate. destruct Hstate as (_ & _ & _ & _ & _ & Hcv).
  rewrite Hr in Hcv.
  destruct calculate_outcome as [[_ Hr']|[_ Hr']]; rewrite Hr in Hr';
    [done|]. symmetry in Hr'.
  destruct (calculate_with_outcome [])
    as [[Hb Hr'']|(Hb & edges & pts & He & Hp
                  & [[Hlen Hr'']|(Hlen & pts' & Hr'' & Hperm)])];
    rewrite Hr' in Hr''; try done.
  injection Hr'' as ->. cbn [points]. split_and!; [|done|done].
  apply Permutation_length in Hperm. lia.
Qed.

(** X6.  On a boundary without points [calculate] raises: [IndexError] at
    line 112 on an object without obstructor segments, and [NameError] at
    line 104, before the boundary is looked at, on an object with one.  By
    then lines 69-71 have run: the cached position and radius are those of
    the failed call and the debug points are gone, while the cached polygon
    is still the one of the last successful call. *)
Theorem calculate_empty_boundary :
  points boundary = [] ->
  calculate M self eye radius boundary
  = ({| obs_points := obs_points self;
        obs_segs := obs_segs self;
        cached_vision := cached_vision self;
        cached_position := Some eye;
        cached_radius := Some radius;
        debug := debug self;
        debug_points := [] |},
     Raise (if decide (obs_segs self = []) then IndexError else NameError)).
Proof.
  intros Hb. case_decide as Hobs.
  - rewrite calculate_without_segs by done.
    unfold calculate_with, candidates. by rewrite boundary_edges_empty.
  - by rewrite calculate_with_segs.
Qed.
End Outcome.

Section Provenance.
Context {N : Type} `{PyNumOrder N} (M : MathModule N).
Variables (self : Vision N) (eye : Vector N) (radius : N)
          (boundary : Polygon N).

(** X7.  Where the vertices of the polygon come from, when [sort_around]
    returns only points it was given.  [calculate] returns a polygon only on
    an object without obstructor segments, and a vertex of that polygon is
    a candidate or the nearest hit, pulled back to the radius, of the ray
    through a candidate; the candidates are the boundary vertices, the
    obstructor points within the radius and what
    [intersect_linesegs_linesegs] returns for no segments and the boundary
    edges. *)
Theorem calculate_vertices_provenance (poly : Polygon N) :
  (forall l x, x ∈ sort_around M eye l -> x ∈ l) ->
  (calculate M self eye radius boundary).2 = Ok poly ->
  obs_segs self = []
  /\ forall x, x ∈ points poly ->
       let candidate := fun c : Vector N =>
         c ∈ points boundary
         \/ (c ∈ obs_points self
             /\ nle (get_length_squared (vsub eye c)) (radius_squared radius)
                = true)
         \/ (exists edges,
               boundary_edges boundary = Ok edges
               /\ c ∈ intersect_linesegs_linesegs M [] edges) in
       candidate x
       \/ exists c, candidate c
            /\ sweep_hit M eye radius boundary [] c = Some x.
Proof.
  intros Hsort Hr.
  destruct (calculate_outcome M self eye radius boundary)
    as [[_ Hr']|[Hobs Hr']]; rewrite Hr in Hr'; [done|].
  split; [done|]. symmetry in Hr'. intros x Hx candidate.
  destruct (calculate_with_outcome M self eye radius boundary [])
    as [[_ Hr'']|(_ & edges & pts & He & Hp
                 & [[_ Hr'']|(_ & pts' & Hr'' & Hperm)])];
    rewrite Hr' in Hr''; try done.
  injection Hr'' as ->. cbn [points] in Hx. rewrite Hperm in Hx.
  unfold swept_vertices, sorted_vertices in Hp.
  rewrite crossing_filter_filter in Hp.
  cbn [mbind PyResult_bind mret PyResult_ret] in Hp.
  destruct (sweep _ _ _ _ _ _ _) as [[pts0 ins]| |] eqn:Hs; [|done|done].
  cbn in Hp. injection Hp as ->.
  apply sweep_loop_shape in Hs as (new & Hnew & _ & _ & Helem & Hins);
    [|cbn; lia].
  assert (Hcand : forall c,
    c ∈ sort_around M eye
          (direct_visible M self eye radius boundary []
           ++ List.filter (fun _ => true)
                (intersect_linesegs_linesegs M [] edges)) ->
    candidate c).
  { intros c Hc. apply Hsort, elem_of_app in Hc as [Hvis|Hkept].
    - unfold direct_visible in Hvis.
      apply list_elem_of_In, filter_In in Hvis as [Hin Hvis].
      apply list_elem_of_In, set_iter_elem, elem_of_app in Hin.
      unfold check_visibility in Hvis.
      destruct (decide (c ∈ points boundary)) as [?|Hnb]; [by left|].
      right. left. destruct Hin as [Hin|?]; [|done]. split; [done|].
      rewrite (bool_decide_eq_false_2 _ Hnb), andb_true_r in Hvis.
      rewrite ngt_nle in Hvis.
      by destruct (nle _ _).
    - apply list_elem_of_In, filter_In in Hkept as [Hin _].
      apply list_elem_of_In in Hin. right. right. by exists edges. }
  destruct (Helem x Hx) as [Hx'|Hx'].
  - left. by apply Hcand.
  - destruct (Hins x Hx') as (c & Hc & Hhit). rewrite drop_0 in Hc.
    right. exists c. split; [by apply Hcand|done].
Qed.

(** X8.  On an object without obstructor segments and with a [sort_around]
    that keeps the number of points, [calculate] returns a polygon whenever
    the boundary has a point and at least two of the obstructor and
    boundary points are directly visible: the sweep never shortens the
    list, so the fix-up of line 186 finds its two vertices. *)
Theorem calculate_succeeds :
  obs_segs self = [] ->
  (forall l, length (sort_around M eye l) = length l) ->
  points boundary <> [] ->
  (2 <= length (direct_visible M self eye radius boundary []))%nat ->
  exists poly, (calculate M self eye radius boundary).2 = Ok poly.
Proof.
  intros Hobs Hsort Hb Hvis. rewrite calculate_without_segs by done.
  destruct (calculate_with_outcome M self eye radius boundary [])
    as [[? _]|(_ & edges & pts & He & Hp
               & [[Hlen _]|(_ & pts' & -> & _)])]; [done| |by eauto].
  exfalso.
  unfold swept_vertices, sorted_vertices in Hp.
  rewrite crossing_filter_filter in Hp.
  cbn [mbind PyResult_bind mret PyResult_ret] in Hp.
  destruct (sweep _ _ _ _ _ _ _) as [[pts0 ins]| |] eqn:Hs; [|done|done].
  cbn in Hp. injection Hp as ->.
  apply sweep_loop_shape in Hs as (new & _ & Hlen' & _); [|cbn; lia].
  rewrite Hsort, length_app in Hlen'. lia.
Qed.
End Provenance.

Section WithoutSegments.
Context {N : Type} `{PyNum N} (M : MathModule N).
Variables (self : Vision N) (eye : Vector N) (radius : N)
          (boundary : Polygon N).

(** X10.  [calculate] on an object without obstructor segments (no
    obstructors, or polylines of a single point each), in closed form: the
    candidates are sorted around the eye, and each one whose ray meets
    something gets the nearest hit, pulled back to the radius, in front of
    it; nothing is filtered, corrected or swapped. *)
Theorem calculate_without_segments (edges : list (Segment N)) :
  obs_segs self = [] ->
  boundary_edges boundary = Ok edges ->
  let sorted :=
    sort_around M eye
      (direct_visible M self eye radius boundary []
       ++ intersect_linesegs_linesegs M [] edges) in
  let swept :=
    sorted ≫= (fun c => option_list (sweep_hit M eye radius boundary [] c)
                        ++ [c]) in
  (calculate M self eye radius boundary).2
  = if decide (length swept < 2)%nat then Raise IndexError
    else Ok (mkPolygon swept).
Proof.
  intros Hobs Hedges. cbv zeta.
  rewrite calculate_without_segs by done.
  unfold calculate_with, candidates. rewrite Hedges.
  cbn [mbind PyResult_bind mret PyResult_ret].
  unfold swept_vertices, sorted_vertices. cbn [crossing_filter].
  cbn [mbind PyResult_bind mret PyResult_ret].
  rewrite (sweep_without_obstructors M self eye radius boundary [] _ Hobs).
  cbn [mbind PyResult_bind mret PyResult_ret fst].
  set (swept := _ ≫= _).
  destruct (decide (length swept < 2)%nat) as [Hlen|Hlen].
  - by rewrite wrap_fix_short.
  - unfold wrap_fix.
    destruct (py_get_in_range swept (-1)) as (a & -> & _); [lia|].
    destruct (py_get_nonneg swept 1) as (b & -> & _); [lia|].
    cbn [mbind PyResult_bind]. unfold segment_in_obs. by rewrite Hobs.
Qed.

End WithoutSegments.

(** ** The crossing filter *)

Section CrossingFilter.
Context {N : Type} `{PyNum N} (M : MathModule N).
Variables (eye : Vector N).

Lemma sublist_List_filter {A} (f : A -> bool) (l : list A) :
  sublist (List.filter f l) l.
Proof.
  induction l as [|a l IH]; cbn; [constructor|].
  destruct (f a); by constructor.
Qed.

(** X11.  The loop of lines 119-128, which removes by value from the list
    it is walking, never raises and works as a filter: it keeps, in their
    order and with their repetitions, exactly the crossing points that, for
    every segment, lie on the segment or have a sight line the segment does
    not meet. *)
Theorem crossing_filter_keeps (segs : list (Segment N))
    (bips : list (Vector N)) :
  exists kept,
    crossing_filter M eye segs bips = Ok kept
    /\ kept = List.filter
                (fun p =>
                   forallb (fun seg => negb (crossing_hidden M eye seg p))
                     segs) bips
    /\ sublist kept bips
    /\ forall p, p ∈ kept
         <-> p ∈ bips
             /\ forall seg, seg ∈ segs ->
                  point_on_lineseg seg.1 seg.2 p = true
                  \/ check_intersect_lineseg_lineseg M eye p seg.1 seg.2
                     = false.
Proof.
  eexists. split; [apply crossing_filter_filter|]. split; [done|].
  split; [apply sublist_List_filter|].
  intros p. rewrite list_elem_of_In, filter_In, <- list_elem_of_In.
  rewrite forallb_forall. unfold crossing_hidden.
  split; intros [Hp Hall]; (split; [done|]); intros seg Hseg.
  - apply list_elem_of_In, Hall in Hseg.
    destruct (point_on_lineseg _ _ _); [by left|right].
    by destruct (check_intersect_lineseg_lineseg _ _ _ _ _).
  - apply list_elem_of_In, Hall in Hseg as [->| ->]; [done|].
    by rewrite andb_false_r.
Qed.
End CrossingFilter.

(** ** The obstructor index and the boundary edges *)

Section Index.
Context {N : Type} `{PyNum N}.

Lemma length_consecutive_pairs {A} (l : list A) :
  length (consecutive_pairs l) = (length l - 1)%nat.
Proof.
  unfold consecutive_pairs. rewrite length_zip, length_drop. lia.
Qed.

(** X12.  A polyline of [n] points gives [n] obstructor points and, when it
    has points at all, [n - 1] segments, none of them closing the polyline
    or joining it to the next one; both ends of every segment are obstructor
    points. *)
Theorem set_obstructors_counts (self : Vision N)
    (obstructors : list (list (Vector N))) :
  let index := set_obstructors self obstructors in
  length (obs_points index) = list_sum (map length obstructors)
  /\ length (obs_segs index)
     = list_sum (map (fun strip => (length strip - 1)%nat) obstructors)
  /\ forall a b, (a, b) ∈ obs_segs index ->
       a ∈ obs_points index /\ b ∈ obs_points index.
Proof.
  cbv zeta. cbn [set_obstructors obs_points obs_segs].
  rewrite !flatten_list_concat, !length_concat. split; [done|]. split.
  - f_equal. rewrite <- list_fmap_compose. apply map_ext. intros strip.
    apply length_consecutive_pairs.
  - intros a b (pairs & Hab & Hpairs)%elem_of_concat.
    apply list_elem_of_fmap in Hpairs as (strip & -> & Hstrip).
    apply elem_of_consecutive_pairs in Hab as (i & Ha & Hb).
    split; apply elem_of_concat; exists strip; split; try done;
      by eapply list_elem_of_lookup_2.
Qed.

(** X13.  The edge list of line 112 closes the boundary: a boundary of [n]
    points has [n] edges, and edge [i] joins point [i] to point
    [(i + 1) mod n].  A boundary of one point has the one edge from the
    point to itself. *)
Theorem boundary_edges_cycle (boundary : Polygon N) :
  points boundary <> [] ->
  exists edges,
    boundary_edges boundary = Ok edges
    /\ length edges = length (points boundary)
    /\ forall (i : nat) a b,
         edges !! i = Some (a, b)
         <-> points boundary !! i = Some a
             /\ points boundary !! (S i `mod` length (points boundary))%nat
                = Some b.
Proof.
  intros Hb. destruct (boundary_edges_Ok boundary Hb)
    as (l & f & Hl & Hf & ->).
  eexists. split; [done|].
  destruct (points boundary) as [|x pts] eqn:Hpts; [done|]. clear Hb.
  cbn in Hf. injection Hf as ->.
  assert (Hlast : (f :: pts) !! length pts = Some l).
  { destruct (lookup_lt_is_Some_2 (f :: pts) (length pts)) as [y Hy];
      [cbn; lia|].
    rewrite Hy. f_equal. symmetry. subst l.
    by apply last_lookup_length. }
  split.
  { rewrite length_app, length_consecutive_pairs. cbn. lia. }
  intros i a b.
  destruct (decide (i < length pts)%nat) as [Hi|Hi].
  - rewrite lookup_app_l by (rewrite length_consecutive_pairs; cbn; lia).
    rewrite Nat.mod_small by (cbn; lia).
    unfold consecutive_pairs. rewrite lookup_zip_with_Some.
    rewrite lookup_drop. change (1 + i)%nat with (S i).
    split.
    + by intros (? & ? & [= <- <-] & ? & ?).
    + intros [? ?]. by exists a, b.
  - destruct (decide (i = length pts)) as [->|Hne].
    + rewrite lookup_app_r by (rewrite length_consecutive_pairs; cbn; lia).
      rewrite length_consecutive_pairs. cbn [length].
      replace (S (length pts) - 1 - (S (length pts) - 1))%nat with 0%nat
        by lia.
      replace (S (length pts) - 1)%nat with (length pts) by lia.
      rewrite Nat.Div0.mod_same. rewrite Hlast. cbn.
      rewrite Nat.sub_diag. cbn.
      split; [by intros [= <- <-]|]. intros [Ha Hb].
      injection Ha as <-. by injection Hb as <-.
    + rewrite lookup_ge_None_2
        by (rewrite length_app, length_consecutive_pairs; cbn; lia).
      rewrite (lookup_ge_None_2 (f :: pts) i) by (cbn; lia).
      split; [done|by intros [? _]].
Qed.
End Index.

(** ** Points on segments *)

Section OnSegment.
Context {N : Type} `{PyNumOrder N} `{!PyNumRing N} `{!PyNumTotal N}.

Add Ring N_ring'' : (@num_ring N _ _).

Lemma nle_nmin_l (a b : N) : nle (nmin a b) a = true.
Proof.
  unfold nmin. rewrite nlt_nle.
  destruct (nle a b) eqn:E; cbn; [apply nle_refl|by apply nle_total].
Qed.

Lemma nle_nmin_r (a b : N) : nle (nmin a b) b = true.
Proof.
  unfold nmin. rewrite nlt_nle.
  destruct (nle a b) eqn:E; cbn; [done|apply nle_refl].
Qed.

Lemma nle_nmax_l (a b : N) : nle a (nmax a b) = true.
Proof.
  unfold nmax. rewrite nlt_nle.
  destruct (nle b a) eqn:E; cbn; [apply nle_refl|by apply nle_total].
Qed.

Lemma nle_nmax_r (a b : N) : nle b (nmax a b) = true.
Proof.
  unfold nmax. rewrite nlt_nle.
  destruct (nle b a) eqn:E; cbn; [done|apply nle_refl].
Qed.

Lemma point_on_lineseg_ends (a b : Vector N) :
  point_on_lineseg a b a = true /\ point_on_lineseg a b b = true.
Proof.
  unfold point_on_lineseg. destruct a as [ax ay], b as [bx by']. cbn.
  rewrite !nle_nmin_l, !nle_nmin_r, !nle_nmax_l, !nle_nmax_r, !andb_true_r.
  split.
  - replace (nsub (nmul (nsub ay ay) (nsub bx ax))
                  (nmul (nsub ax ax) (nsub by' ay))) with (@n_zero N _)
      by ring.
    rewrite nabs_zero. apply hundredth_positive.
  - replace (nsub (nmul (nsub by' ay) (nsub bx ax))
                  (nmul (nsub bx ax) (nsub by' ay))) with (@n_zero N _)
      by ring.
    rewrite nabs_zero. apply hundredth_positive.
Qed.

(** X14.  The ends of a segment are on the segment, so every obstructor
    segment, in the direction it is stored or reversed, is "in obs" -- as
    is the degenerate segment from an end to itself. *)
Theorem obstructor_segment_in_obs (self : Vision N) (seg : Segment N) :
  seg ∈ obs_segs self ->
  segment_in_obs self seg = true
  /\ segment_in_obs self (seg.2, seg.1) = true
  /\ segment_in_obs self (seg.1, seg.1) = true
  /\ segment_in_obs self (seg.2, seg.2) = true.
Proof.
  intros Hseg. destruct seg as [a b].
  destruct (point_on_lineseg_ends a b) as [H1 H2]. cbn [fst snd].
  rewrite !segment_in_obs_embedded.
  split_and!; exists (a, b); by rewrite ?H1, ?H2.
Qed.
End OnSegment.

(** ** [closest_points] *)

Section Closest.
Context {N : Type} `{PyNumOrder N} `{!PyNumTotal N}.

Lemma insert_by_key_sorted {A} (key : A -> N) (a : A) (l : list A) :
  StronglySorted (fun p q => nle (key p) (key q) = true) l ->
  StronglySorted (fun p q => nle (key p) (key q) = true)
    (insert_by_key key a l).
Proof.
  intros Hl. induction Hl as [|b l Hl IH Hb]; cbn.
  - by repeat constructor.
  - rewrite nlt_nle. destruct (nle (key a) (key b)) eqn:E; cbn.
    + constructor; [by constructor|]. constructor; [done|].
      eapply List.Forall_impl; [|exact Hb]. cbn. intros q Hq.
      by eapply nle_trans.
    + constructor; [done|].
      apply Forall_forall. intros q Hq.
      apply list_elem_of_In in Hq. rewrite insert_by_key_Permutation in Hq.
      apply elem_of_cons in Hq as [->|Hq]; [by apply nle_total|].
      rewrite List.Forall_forall in Hb. apply Hb. by apply list_elem_of_In.
Qed.

Lemma py_sorted_sorted {A} (key : A -> N) (l : list A) :
  StronglySorted (fun p q => nle (key p) (key q) = true) (py_sorted key l).
Proof.
  induction l as [|a l IH]; cbn; [constructor|].
  by apply insert_by_key_sorted.
Qed.

(** The first element of the sorted list is the first element of least
    key of the list that was sorted. *)
Lemma head_py_sorted_first_least {A} (key : A -> N) (l : list A) (h : A) :
  head (py_sorted key l) = Some h ->
  exists before after,
    l = before ++ h :: after
    /\ (forall q, q ∈ before -> nlt (key h) (key q) = true)
    /\ (forall q, q ∈ after -> nle (key h) (key q) = true).
Proof.
  revert h. induction l as [|a l IH]; intros h; [done|].
  change (py_sorted key (a :: l)) with (insert_by_key key a (py_sorted key l)).
  destruct (py_sorted key l) as [|h' sorted] eqn:Hsorted.
  - apply (f_equal length) in Hsorted. rewrite length_py_sorted in Hsorted.
    destruct l; [|done]. cbn. intros [= <-]. exists [], [].
    split_and!; [done|by intros q ?%elem_of_nil..].
  - destruct (IH h' eq_refl) as (before & after & -> & Hbefore & Hafter).
    cbn. destruct (nlt (key h') (key a)) eqn:Hlt; cbn; intros [= <-].
    + exists (a :: before), after. split_and!; [done| |done].
      intros q [->|Hq]%elem_of_cons; [done|by apply Hbefore].
    + exists [], (before ++ h' :: after). split_and!;
        [done|by intros q ?%elem_of_nil|].
      rewrite nlt_nle in Hlt. apply negb_false_iff in Hlt.
      intros q [Hq|[->|Hq]%elem_of_cons]%elem_of_app; [|done|].
      * eapply nle_trans; [exact Hlt|].
        specialize (Hbefore q Hq). rewrite nlt_nle in Hbefore.
        apply negb_true_iff in Hbefore. by apply nle_total.
      * eapply nle_trans; [exact Hlt|]. by apply Hafter.
Qed.

(** X15.  [closest_points] returns the points it was given, each as often
    as it was given, in the order of their squared distance from the
    reference point.  Its first element, the one the sweep takes, is the
    first of the given points that is nearest to the reference: among
    points at the same distance the one given first wins. *)
Theorem closest_points_sorted (pts : list (Vector N))
    (reference : Vector N) :
  let distance p := get_length_squared (vsub p reference) in
  closest_points pts reference ≡ₚ pts
  /\ StronglySorted (fun p q => nle (distance p) (distance q) = true)
       (closest_points pts reference)
  /\ forall nearest, head (closest_points pts reference) = Some nearest ->
       exists before after,
         pts = before ++ nearest :: after
         /\ (forall q, q ∈ before ->
               nlt (distance nearest) (distance q) = true)
         /\ (forall q, q ∈ after ->
               nle (distance nearest) (distance q) = true).
Proof.
  cbv zeta. unfold closest_points.
  split_and!;
    [apply py_sorted_Permutation|apply py_sorted_sorted
    |apply head_py_sorted_first_least].
Qed.
End Closest.
(** ** The cache over sequences of calls *)

Section CacheHistory.
Context {N : Type} `{PyNum N} (M : MathModule N).

Lemma recalculated_calculate (self : Vision N) eye radius boundary :
  recalculated M self eye radius boundary
  = ((calculate M self eye radius boundary).1,
     match (calculate M self eye radius boundary).2 with
     | Ok poly => Ok (Some poly)
     | Raise e => Raise e
     | OutOfFuel => OutOfFuel
     end).
Proof.
  unfold recalculated.
  pose proof (calculate_state M self eye radius boundary) as Hstate.
  cbv zeta in Hstate. destruct Hstate as (_ & _ & _ & _ & _ & Hcv).
  destruct (calculate M self eye radius boundary) as [self' [poly|e|]];
    cbn in *; by rewrite ?Hcv.
Qed.

Lemma get_vision_cases (self : Vision N) eye radius boundary :
  get_vision M self eye radius boundary
  = recalculated M self eye radius boundary
  \/ (exists poly position,
        cached_vision self = Some poly
        /\ cached_position self = Some position
        /\ ngt (get_length_squared (vsub position eye)) n_one = false
        /\ get_vision M self eye radius boundary = (self, Ok (Some poly)))
  \/ (is_Some (cached_vision self)
      /\ cached_position self = None
      /\ get_vision M self eye radius boundary = (self, Raise TypeError)).
Proof.
  unfold get_vision.
  destruct (cached_vision self) as [poly|] eqn:Hcv; [|by left].
  destruct (cached_position self) as [position|] eqn:Hpos;
    [|by right; right; eauto].
  destruct (ngt _ _) eqn:Hmoved; [by left|].
  right. left. by exists poly, position.
Qed.

Lemma calculate_result_ext (s1 s2 : Vision N) eye radius boundary :
  obs_points s1 = obs_points s2 -> obs_segs s1 = obs_segs s2 ->
  (calculate M s1 eye radius boundary).2
  = (calculate M s2 eye radius boundary).2.
Proof.
  destruct s1 as [ps1 ss1 cv1 cp1 cr1 d1 dp1].
  destruct s2 as [ps2 ss2 cv2 cp2 cr2 d2 dp2].
  cbn. intros <- <-.
  set (s1 := mkVision ps1 ss1 cv1 cp1 cr1 d1 dp1).
  set (s2 := mkVision ps1 ss1 cv2 cp2 cr2 d2 dp2).
  destruct ss1 as [|seg ss1]; [|by rewrite !calculate_with_segs by done].
  rewrite !calculate_without_segs by done.
  unfold calculate_with. set (segs := @nil (Segment N)).
  change (candidates M s1 eye radius boundary segs)
    with (candidates M s2 eye radius boundary segs).
  destruct (candidates _ _ _ _ _ _) as [[vis bips]| |]; [|by cbn|by cbn].
  change (swept_vertices M s1 eye radius boundary segs vis bips
            ≫= wrap_fix s1)
    with (swept_vertices M s2 eye radius boundary segs vis bips
            ≫= wrap_fix s2).
  by destruct (_ ≫= _).
Qed.

(** X16.  [set_obstructors] makes an old object behave like a new one: the
    next [get_vision] or [calculate] returns what the same call returns on
    an object freshly built from the same obstructors, whatever the old
    object's obstructors, cache, debug switch and debug points were. *)
Theorem set_obstructors_like_fresh (self : Vision N)
    (obstructors : list (list (Vector N))) eye radius boundary :
  (get_vision M (set_obstructors self obstructors) eye radius boundary).2
  = (get_vision M (Vision_init obstructors) eye radius boundary).2
  /\ (calculate M (set_obstructors self obstructors) eye radius boundary).2
     = (calculate M (Vision_init obstructors) eye radius boundary).2.
Proof.
  assert (Hc : (calculate M (set_obstructors self obstructors) eye radius
                  boundary).2
               = (calculate M (Vision_init obstructors) eye radius boundary).2)
    by by apply calculate_result_ext.
  split; [|done].
  unfold get_vision. cbn [cached_vision set_obstructors Vision_init].
  rewrite !recalculated_calculate. cbn [snd]. by rewrite Hc.
Qed.

(** X17.  The debug switch changes no result: with the switch set either
    way, [calculate] and [get_vision] return what they return on the object
    as it was. *)
Theorem debug_does_not_change_result (self : Vision N) (flag : bool)
    eye radius boundary :
  (calculate M (set_debug self flag) eye radius boundary).2
  = (calculate M self eye radius boundary).2
  /\ (get_vision M (set_debug self flag) eye radius boundary).2
     = (get_vision M self eye radius boundary).2.
Proof.
  assert (Hc : (calculate M (set_debug self flag) eye radius boundary).2
               = (calculate M self eye radius boundary).2)
    by by apply calculate_result_ext.
  split; [done|].
  unfold get_vision. cbn [set_debug cached_vision cached_position].
  rewrite !recalculated_calculate. cbn [snd]. rewrite Hc.
  destruct (cached_vision self) as [poly|]; [|done].
  destruct (cached_position self) as [position|]; [|done].
  by destruct (ngt _ _).
Qed.

(** X18.  On an object a program can reach, a cached polygon always comes
    with a cached position and radius, so the subtraction of line 55 never
    meets [None]: whatever [get_vision] raises is what [calculate] raises,
    [NameError] on an object with an obstructor segment and [IndexError] on
    one without. *)
Theorem reachable_cache_consistent (self : Vision N) :
  reachable M self ->
  (is_Some (cached_vision self) ->
   is_Some (cached_position self) /\ is_Some (cached_radius self))
  /\ forall eye radius boundary e,
       (get_vision M self eye radius boundary).2 = Raise e ->
       (e = NameError /\ obs_segs self <> [])
       \/ (e = IndexError /\ obs_segs self = []).
Proof.
  intros Hreach.
  assert (Hinv : is_Some (cached_vision self) ->
                 is_Some (cached_position self)
                 /\ is_Some (cached_radius self)).
  { induction Hreach as [obstructors|self obstructors _ _
                         |self eye radius boundary _ _
                         |self eye radius boundary _ IH|self flag _ IH];
      cbn; try done; try (by intros [? [=]]).
    - pose proof (calculate_state M self eye radius boundary) as Hstate.
      cbv zeta in Hstate. destruct Hstate as (_ & _ & _ & Hp & Hr & _).
      rewrite Hp, Hr. by eauto.
    - unfold get_vision.
      pose proof (calculate_state M self eye radius boundary) as Hstate.
      cbv zeta in Hstate. destruct Hstate as (_ & _ & _ & Hp & Hr & _).
      assert (Hrec : is_Some (cached_position
                (recalculated M self eye radius boundary).1)
              /\ is_Some (cached_radius
                   (recalculated M self eye radius boundary).1)).
      { rewrite recalculated_calculate. cbn [fst].
        rewrite Hp, Hr. by eauto. }
      destruct (cached_vision self) as [poly|] eqn:Hcv; [|done].
      destruct (cached_position self) as [position|] eqn:Hpos.
      2:{ destruct IH as [[? [=]] _]. by eauto. }
      destruct (ngt _ _); [done|]. cbn [fst]. by rewrite Hcv, Hpos. }
  split; [done|].
  intros eye radius boundary e. unfold get_vision.
  assert (Hrec : (recalculated M self eye radius boundary).2 = Raise e ->
                 (e = NameError /\ obs_segs self <> [])
                 \/ (e = IndexError /\ obs_segs self = [])).
  { rewrite recalculated_calculate. cbn [snd].
    destruct (calculate_outcome M self eye radius boundary)
      as [[Hobs ->]|[Hobs ->]]; [intros [= <-]; by left|].
    destruct (calculate_with_outcome M self eye radius boundary [])
      as [[_ ->]|(_ & edges & pts & _ & _
                  & [[_ ->]|(_ & pts' & -> & _)])];
      [intros [= <-]; by right..|done]. }
  destruct (cached_vision self) as [poly|] eqn:Hcv; [|done].
  destruct Hinv as [[position Hpos] _]; [by eauto|]. rewrite Hpos.
  by destruct (ngt _ _).
Qed.
End CacheHistory.

Section CacheArithmetic.
Context {N : Type} `{PyNumOrder N} `{!PyNumRing N} (M : MathModule N).

Add Ring N_ring' : (@num_ring N _ _).

(** The eye has not moved from itself. *)
Lemma same_eye_not_moved (eye : Vector N) :
  ngt (get_length_squared (vsub eye eye)) n_one = false.
Proof.
  rewrite ngt_nle.
  assert (Hz : get_length_squared (vsub eye eye) = n_zero).
  { unfold get_length_squared, vsub. destruct eye as [x y]. cbn. ring. }
  rewrite Hz. pose proof (nle_square n_one) as H1.
  replace (nmul n_one n_one) with n_one in H1 by ring. by rewrite H1.
Qed.

(** X19.  Asking twice from the same eye computes once: when [get_vision]
    returns, it returns a polygon, and a second call from the same eye
    returns the same polygon and leaves the object as it is, whatever radius
    and boundary it is given. *)
Theorem get_vision_twice (self : Vision N) eye radius boundary
    (result : option (Polygon N)) :
  (get_vision M self eye radius boundary).2 = Ok result ->
  exists poly,
    result = Some poly
    /\ forall radius' boundary',
         get_vision M (get_vision M self eye radius boundary).1
           eye radius' boundary'
         = ((get_vision M self eye radius boundary).1, Ok (Some poly)).
Proof.
  destruct (get_vision_cases M self eye radius boundary)
    as [->|[(poly & position & Hcv & Hpos & Hmoved & ->)|(_ & _ & ->)]];
    [| |done].
  - rewrite recalculated_calculate. cbn [fst snd].
    pose proof (calculate_state M self eye radius boundary) as Hstate.
    cbv zeta in Hstate. destruct Hstate as (_ & _ & _ & Hp & _ & Hcv).
    destruct (calculate M self eye radius boundary) as [self' [poly| |]];
      cbn in *; [|done|done].
    intros [= <-]. exists poly. split; [done|]. intros radius' boundary'.
    unfold get_vision. by rewrite Hcv, Hp, same_eye_not_moved.
  - cbn [fst snd]. intros [= <-]. exists poly. split; [done|].
    intros radius' boundary'. unfold get_vision.
    by rewrite Hcv, Hpos, Hmoved.
Qed.

(** X20.  A failed recomputation leaves a stale polygon behind.  When
    [get_vision] raises [IndexError] on an object that had a polygon
    cached, line 70 has already moved the cached position to the new eye
    while the cached polygon is still the old one, so the next [get_vision]
    from that eye returns the old polygon, computed for another eye,
    without recomputing. *)
Theorem failed_get_vision_leaves_stale_polygon (self : Vision N)
    eye radius boundary (old : Polygon N) :
  cached_vision self = Some old ->
  (get_vision M self eye radius boundary).2 = Raise IndexError ->
  forall radius' boundary',
    get_vision M (get_vision M self eye radius boundary).1
      eye radius' boundary'
    = ((get_vision M self eye radius boundary).1, Ok (Some old)).
Proof.
  intros Hold.
  destruct (get_vision_cases M self eye radius boundary)
    as [->|[(poly & position & _ & _ & _ & ->)|(_ & _ & ->)]];
    [|done|done].
  rewrite recalculated_calculate. cbn [fst snd].
  pose proof (calculate_state M self eye radius boundary) as Hstate.
  cbv zeta in Hstate. destruct Hstate as (_ & _ & _ & Hp & _ & Hcv).
  destruct (calculate M self eye radius boundary) as [self' [poly|e|]];
    cbn in *; [done| |done].
  intros _ radius' boundary'.
  unfold get_vision. by rewrite Hcv, Hold, Hp, same_eye_not_moved.
Qed.
End CacheArithmetic.

(** ** The theorems at work on the scenarios *)

(** A closed proposition that evaluates to a decision is proved by running
    the decision procedure. *)
Ltac by_evaluation := apply (bool_decide_unpack _); vm_compute; exact I.

Section ModelFacts.
Lemma ExactMath_sort_keeps (eye : Vector Qc) (l : list (Vector Qc)) x :
  x ∈ sort_around ExactMath eye l -> x ∈ l.
Proof.
  change (sort_around ExactMath eye l) with (Geometry.sort_around eye l).
  intros Hx. by rewrite (sort_around_Permutation eye l) in Hx.
Qed.

Lemma ExactMath_sort_length (eye : Vector Qc) (l : list (Vector Qc)) :
  length (sort_around ExactMath eye l) = length l.
Proof.
  change (sort_around ExactMath eye l) with (Geometry.sort_around eye l).
  apply Permutation_length, sort_around_Permutation.
Qed.
End ModelFacts.

(** ** The square without obstructors *)

(** C2.  With no obstructors, the eye at the origin, radius 5 and the
    square of half-width 5 as the boundary, [calculate] returns the four
    corners of the square and nothing else, in the order of increasing angle
    around the eye (counterclockwise, each vertex to the left of the one
    before); the sweep inserts no point.  The same holds when the numbers
    are binary64 floats. *)
Theorem square_scenario :
  let c1 := pt (-5) (-5) in
  let c2 := pt 5 (-5) in
  let c3 := pt 5 5 in
  let c4 := pt (-5) 5 in
  (calculate ExactMath no_obstructors origin (Qc_of_Z 5) (square 5)).2
  = Ok (mkPolygon [c1; c2; c3; c4])
  /\ [c1; c2; c3; c4] ≡ₚ points (square 5)
  /\ Forall (fun seg : Segment Qc =>
       nlt n_zero (Geometry.cross (vsub seg.1 origin) (vsub seg.2 origin))
       = true)
       [(c1, c2); (c2, c3); (c3, c4); (c4, c1)]
  /\ sweep ExactMath no_obstructors origin (Qc_of_Z 5) (square 5) []
       [c1; c2; c3; c4] = Ok ([c1; c2; c3; c4], [])
  /\ (calculate FloatMath (Vision_init []) float_origin 5%float
        (float_square 5%float)).2
     = Ok (mkPolygon [mkVector (-5)%float (-5)%float;
                      mkVector 5%float (-5)%float;
                      mkVector 5%float 5%float;
                      mkVector (-5)%float 5%float]).
Proof. cbv zeta. split_and!; by_evaluation. Qed.

(** ** The unbound name of line 104 *)

(** C1, on the wall to the right with the debug switch on.  The end
    [(2, 1)] of the wall is an obstructor point within the radius, and the
    only segment that meets its sight line ends in it: by the claim it
    belongs to the visible points, and the filter of line 109, run on the
    segments, keeps it.  But [calculate] never gets there: line 106 calls
    [lineseg_in_radius] for the wall, line 104 raises [NameError], and the
    debug points, which line 114 fills with the visible points, are left
    empty.  This is so for every model of the primitives of [Math], every
    eye, radius and boundary. *)
Theorem visible_points_never_built :
  let self := set_debug wall_right true in
  let p := pt 2 1 in
  let radius := Qc_of_Z 10 in
  p ∈ obs_points self ++ points (square 10)
  /\ nle (get_length_squared (vsub origin p)) (radius_squared radius) = true
  /\ (forall seg : Segment Qc,
        seg ∈ obs_segs self ->
        check_intersect_lineseg_lineseg ExactMath origin p seg.1 seg.2 = true ->
        seg.1 = p \/ seg.2 = p)
  /\ p ∈ direct_visible ExactMath self origin radius (square 10)
           (obs_segs self)
  /\ pruned_segs self origin radius = Raise NameError
  /\ calculate ExactMath self origin radius (square 10)
     = (entered self origin radius, Raise NameError)
  /\ debug_points (calculate ExactMath self origin radius (square 10)).1 = []
  /\ (forall (M : MathModule Qc) eye radius' boundary,
        (calculate M self eye radius' boundary).2 = Raise NameError).
Proof.
  cbv zeta. split_and!; try by_evaluation.
  - intros seg Hseg _. apply list_elem_of_singleton in Hseg as ->. by right.
  - intros M eye radius' boundary. by rewrite calculate_with_segs.
Qed.

(** C3, on the wall to the right.  The pruning of line 106 never yields a
    list: with the wall among the segments line 104 raises [NameError], for
    every model of the primitives, every eye, radius and boundary, and
    [calculate] returns no polygon.  Lines 109-192 run on the full list of
    segments return the polygon with the shadow of the wall. *)
Theorem pruning_raises_NameError :
  (forall (M : MathModule Qc) eye radius boundary,
     calculate M wall_right eye radius boundary
     = (entered wall_right eye radius, Raise NameError))
  /\ pruned_segs wall_right origin (Qc_of_Z 25) = Raise NameError
  /\ (calculate_with ExactMath wall_right origin (Qc_of_Z 25) (square 10)
        (obs_segs wall_right)).2
     = Ok (mkPolygon [pt (-10) (-10); pt 10 (-10); pt 10 (-5); pt 2 (-1);
                      pt 2 1; pt 10 5; pt 10 10; pt (-10) 10])
  /\ (calculate ExactMath wall_right origin (Qc_of_Z 25) (square 10)).2
     <> (calculate_with ExactMath wall_right origin (Qc_of_Z 25) (square 10)
           (obs_segs wall_right)).2.
Proof.
  split_and!; try by_evaluation.
  intros M eye radius boundary. by rewrite calculate_with_segs.
Qed.

(** ** The clamp *)



(** ** The cache *)

(** A first call computes; a call with radius 3 and another boundary from
    an eye that has moved by 1 gets the polygon computed with radius 10; a
    call from an eye that has moved by more computes again. *)
Lemma get_vision_cache_policy_witness :
  let four := mkPolygon [pt (-5) (-5); pt 5 (-5); pt 5 5; pt (-5) 5] in
  let nine := mkPolygon [pt (-9) (-9); pt 9 (-9); pt 9 9; pt (-9) 9] in
  let first := calculate ExactMath no_obstructors origin (Qc_of_Z 10)
                 (square 5) in
  let moved := calculate ExactMath first.1 (pt 1 1) (Qc_of_Z 3) (square 9) in
  get_vision ExactMath no_obstructors origin (Qc_of_Z 10) (square 5)
  = (first.1, Ok (Some four))
  /\ get_vision ExactMath first.1 (pt 1 0) (Qc_of_Z 3) (square 9)
     = (first.1, Ok (Some four))
  /\ get_vision ExactMath first.1 (pt 1 1) (Qc_of_Z 3) (square 9)
     = (moved.1, Ok (Some nine)).
Proof.
  cbv zeta.
  assert (Hfirst :
    (calculate ExactMath no_obstructors origin (Qc_of_Z 10) (square 5)).2
    = Ok (mkPolygon [pt (-5) (-5); pt 5 (-5); pt 5 5; pt (-5) 5]))
    by by_evaluation.
  set (first := calculate ExactMath no_obstructors origin (Qc_of_Z 10)
                  (square 5)) in *.
  assert (Hmoved :
    (calculate ExactMath first.1 (pt 1 1) (Qc_of_Z 3) (square 9)).2
    = Ok (mkPolygon [pt (-9) (-9); pt 9 (-9); pt 9 9; pt (-9) 9]))
    by by_evaluation.
  assert (Hv : cached_vision first.1
    = Some (mkPolygon [pt (-5) (-5); pt 5 (-5); pt 5 5; pt (-5) 5]))
    by by_evaluation.
  assert (Hp : cached_position first.1 = Some origin) by by_evaluation.
  assert (Hnear : nle (get_length_squared (vsub origin (pt 1 0))) n_one = true)
    by by_evaluation.
  assert (Hfar : nle (get_length_squared (vsub origin (pt 1 1))) n_one = false)
    by by_evaluation.
  split_and!.
  - rewrite (proj1 (@get_vision_cache_policy Qc _ Qc_PyNumOrder ExactMath
               no_obstructors origin (Qc_of_Z 10) (square 5)) eq_refl).
    fold first. by rewrite Hfirst.
  - exact (proj2 (proj2 (proj2
      (@get_vision_cache_policy Qc _ Qc_PyNumOrder ExactMath no_obstructors
         origin (Qc_of_Z 10) (square 5)))) _ (pt 1 0) (Qc_of_Z 3) (square 9)
         Hfirst Hnear).
  - rewrite (proj1 (proj2 (@get_vision_cache_policy Qc _ Qc_PyNumOrder
               ExactMath first.1 (pt 1 1) (Qc_of_Z 3) (square 9)))
               _ _ Hv Hp Hfar).
    by rewrite Hmoved.
Defined.

(** On a hit the squares of half-width 5 and 9 get the same answer,
    although [calculate] tells them apart. *)
Lemma get_vision_ignores_boundary_on_hit_witness :
  let first := calculate ExactMath no_obstructors origin (Qc_of_Z 10)
                 (square 5) in
  let poly := mkPolygon [pt (-5) (-5); pt 5 (-5); pt 5 5; pt (-5) 5] in
  cached_vision first.1 = Some poly
  /\ cached_position first.1 = Some origin
  /\ nle (get_length_squared (vsub origin (pt 0 1))) n_one = true
  /\ get_vision ExactMath first.1 (pt 0 1) (Qc_of_Z 10) (square 5)
     = get_vision ExactMath first.1 (pt 0 1) (Qc_of_Z 10) (square 9)
  /\ (calculate ExactMath no_obstructors (pt 0 1) (Qc_of_Z 10) (square 5)).2
     <> (calculate ExactMath no_obstructors (pt 0 1) (Qc_of_Z 10)
           (square 9)).2.
Proof.
  cbv zeta.
  assert (Hv : cached_vision
    (calculate ExactMath no_obstructors origin (Qc_of_Z 10) (square 5)).1
    = Some (mkPolygon [pt (-5) (-5); pt 5 (-5); pt 5 5; pt (-5) 5]))
    by by_evaluation.
  assert (Hp : cached_position
    (calculate ExactMath no_obstructors origin (Qc_of_Z 10) (square 5)).1
    = Some origin) by by_evaluation.
  assert (Hnear : nle (get_length_squared (vsub origin (pt 0 1))) n_one = true)
    by by_evaluation.
  split_and!; [exact Hv|exact Hp|exact Hnear| |by_evaluation].
  exact (proj1 (@get_vision_ignores_boundary_on_hit Qc _ Qc_PyNumOrder
    ExactMath _ (pt 0 1) (Qc_of_Z 10) (square 5) (square 9) _ _
    Hv Hp Hnear)).
Defined.

(** ** The seam of the vertex cycle *)


(** ** The obstructor points *)

(** C8 fails as stated: the points are stored as a list, with the corner
    in which two walls meet stored once for each wall. *)
Lemma set_obstructors_keeps_duplicates :
  obs_points (set_obstructors no_obstructors corner_walls)
  = [pt 0 0; pt 1 0; pt 1 0; pt 1 1]
  /\ ~ NoDup (obs_points (set_obstructors no_obstructors corner_walls)).
Proof. split; by_evaluation. Qed.

(** ** The debug points *)

(** C9 fails as stated: a call of [calculate] also rewrites [debug_points]. *)
Lemma calculate_changes_debug_points :
  ~ only_cache_changed debugging
      (calculate ExactMath debugging origin (Qc_of_Z 10) (square 5)).1.
Proof.
  intros (_ & _ & _ & Hdp).
  assert (Hlen : length (debug_points
    (calculate ExactMath debugging origin (Qc_of_Z 10) (square 5)).1) = 4%nat)
    by (vm_compute; reflexivity).
  rewrite Hdp in Hlen. discriminate Hlen.
Qed.

(** ** The further properties on the scenarios *)

(** The sweep around the wall to the right, run on its segment: eight
    vertices from six, two of them inserted. *)
Lemma sweep_length_bounds_witness :
  let pts := [pt (-10) (-10); pt 10 (-10); pt 2 (-1); pt 2 1; pt 10 10;
              pt (-10) 10] in
  let pts' := [pt (-10) (-10); pt 10 (-10); pt 10 (-5); pt 2 (-1); pt 2 1;
               pt 10 5; pt 10 10; pt (-10) 10] in
  let inserted := [pt 10 (-5); pt 10 5] in
  sweep ExactMath wall_right origin (Qc_of_Z 25) (square 10)
    (obs_segs wall_right) pts
  = Ok (pts', inserted)
  /\ (length pts <= length pts' <= length pts + length inserted)%nat
  /\ (length inserted <= length pts)%nat.
Proof.
  cbv zeta.
  match goal with |- ?S /\ _ => assert (Hs : S) by by_evaluation end.
  split; [exact Hs|].
  exact (sweep_length_bounds ExactMath _ _ _ _ _ _ _ _ Hs).
Defined.

(** The sweep around the wall to the left, run on its segment: every vertex
    of the result is one of the six it started from or one of the two
    inserted. *)
Lemma sweep_vertices_provenance_witness :
  let segs := obs_segs wall_left in
  let pts := [pt (-2) (-1); pt (-10) (-10); pt 10 (-10); pt 10 10;
              pt (-10) 10; pt (-2) 1] in
  let pts' := [pt (-2) (-1); pt (-10) (-5); pt (-10) (-10); pt 10 (-10);
               pt 10 10; pt (-10) 10; pt (-10) 5; pt (-2) 1] in
  let inserted := [pt (-10) (-5); pt (-10) 5] in
  sweep ExactMath wall_left origin (Qc_of_Z 25) (square 10) segs pts
  = Ok (pts', inserted)
  /\ (forall x, x ∈ pts' -> x ∈ pts \/ x ∈ inserted)
  /\ (forall x, x ∈ inserted ->
        exists c, c ∈ pts
          /\ sweep_hit ExactMath origin (Qc_of_Z 25) (square 10) segs c
             = Some x).
Proof.
  cbv zeta.
  match goal with |- ?S /\ _ => assert (Hs : S) by by_evaluation end.
  split; [exact Hs|].
  exact (sweep_vertices_provenance ExactMath _ _ _ _ _ _ _ _ Hs).
Defined.

(** The four corners of the closed room, seen from inside. *)
Lemma sweep_along_obstructors_witness :
  let pts := [pt (-2) (-2); pt 2 (-2); pt 2 2; pt (-2) 2] in
  Forall (fun seg => segment_in_obs closed_room seg = true)
    (zip (option_list (list.last pts) ++ pts) pts)
  /\ sweep ExactMath closed_room origin (Qc_of_Z 20) (square 10)
       (obs_segs closed_room) pts
     = Ok (pts, []).
Proof.
  cbv zeta.
  match goal with |- ?A /\ _ => assert (Hall : A) by by_evaluation end.
  split; [exact Hall|].
  exact (sweep_along_obstructors ExactMath closed_room origin (Qc_of_Z 20)
           (square 10) _ _ Hall).
Defined.

(** A boundary of a single point, without obstructors: the swept list has
    one vertex and line 186 raises [IndexError]; and the wall to the right,
    where line 104 raises [NameError]. *)
Lemma calculate_raises_NameError_or_IndexError_witness :
  let dot := mkPolygon [pt 1 1] in
  (calculate ExactMath no_obstructors origin (Qc_of_Z 4) dot).2
  = Raise IndexError
  /\ (exists edges pts,
        boundary_edges dot = Ok edges
        /\ swept_vertices ExactMath no_obstructors origin (Qc_of_Z 4) dot []
             (direct_visible ExactMath no_obstructors origin (Qc_of_Z 4) dot
                [])
             (intersect_linesegs_linesegs ExactMath [] edges)
           = Ok pts
        /\ (length pts < 2)%nat)
  /\ (calculate ExactMath wall_right origin (Qc_of_Z 4) dot).2
     = Raise NameError
  /\ obs_segs wall_right <> [].
Proof.
  cbv zeta.
  assert (Hr : (calculate ExactMath no_obstructors origin (Qc_of_Z 4)
                  (mkPolygon [pt 1 1])).2 = Raise IndexError)
    by by_evaluation.
  assert (Hw : (calculate ExactMath wall_right origin (Qc_of_Z 4)
                  (mkPolygon [pt 1 1])).2 = Raise NameError)
    by by_evaluation.
  split_and!; [exact Hr| |exact Hw|].
  - destruct (calculate_raises_NameError_or_IndexError ExactMath
                no_obstructors origin (Qc_of_Z 4) (mkPolygon [pt 1 1])
                IndexError Hr)
      as [[_ Hne]|(_ & _ & [Hempty|Hshort])];
      [discriminate Hne|discriminate Hempty|exact Hshort].
  - destruct (calculate_raises_NameError_or_IndexError ExactMath
                wall_right origin (Qc_of_Z 4) (mkPolygon [pt 1 1])
                NameError Hw)
      as [[Hsegs _]|(_ & Hne & _)]; [exact Hsegs|discriminate Hne].
Defined.

(** The square without obstructors: four vertices, left in the cache. *)
Lemma calculate_returns_two_vertices_witness :
  let poly := mkPolygon [pt (-5) (-5); pt 5 (-5); pt 5 5; pt (-5) 5] in
  (calculate ExactMath no_obstructors origin (Qc_of_Z 10) (square 5)).2
  = Ok poly
  /\ (2 <= length (points poly))%nat
  /\ points (square 5) <> []
  /\ cached_vision
       (calculate ExactMath no_obstructors origin (Qc_of_Z 10) (square 5)).1
     = Some poly.
Proof.
  cbv zeta.
  match goal with |- ?S /\ _ => assert (Hr : S) by by_evaluation end.
  split; [exact Hr|].
  exact (calculate_returns_two_vertices ExactMath _ _ _ _ _ Hr).
Defined.

(** A boundary without points, on an object that has a polygon cached, and
    on the wall to the right. *)
Lemma calculate_empty_boundary_witness :
  let self :=
    (calculate ExactMath pillars origin (Qc_of_Z 10) (square 10)).1 in
  is_Some (cached_vision self)
  /\ calculate ExactMath self (pt 3 0) (Qc_of_Z 7) (mkPolygon [])
     = ({| obs_points := obs_points self;
           obs_segs := obs_segs self;
           cached_vision := cached_vision self;
           cached_position := Some (pt 3 0);
           cached_radius := Some (Qc_of_Z 7);
           debug := debug self;
           debug_points := [] |}, Raise IndexError)
  /\ (calculate ExactMath wall_right (pt 3 0) (Qc_of_Z 7) (mkPolygon [])).2
     = Raise NameError.
Proof.
  cbv zeta. split_and!.
  - by_evaluation.
  - exact (calculate_empty_boundary ExactMath _ (pt 3 0) (Qc_of_Z 7)
             (mkPolygon []) eq_refl).
  - exact (f_equal snd (calculate_empty_boundary ExactMath wall_right
             (pt 3 0) (Qc_of_Z 7) (mkPolygon []) eq_refl)).
Defined.

(** With the two pillars six points are directly visible. *)
Lemma calculate_succeeds_witness :
  obs_segs pillars = []
  /\ (forall l, length (sort_around ExactMath origin l) = length l)
  /\ (2 <= length
             (direct_visible ExactMath pillars origin (Qc_of_Z 10)
                (square 10) []))%nat
  /\ exists poly,
       (calculate ExactMath pillars origin (Qc_of_Z 10) (square 10)).2
       = Ok poly.
Proof.
  assert (Hvis : (2 <= length (direct_visible ExactMath pillars origin
             (Qc_of_Z 10) (square 10) []))%nat) by by_evaluation.
  assert (Hb : points (square 10) <> []) by discriminate.
  split; [reflexivity|]. split; [apply ExactMath_sort_length|].
  split; [exact Hvis|].
  exact (@calculate_succeeds Qc _ ExactMath pillars origin
           (Qc_of_Z 10) (square 10) eq_refl
           (ExactMath_sort_length origin) Hb Hvis).
Defined.

(** The eight vertices around the two pillars. *)
Lemma calculate_vertices_provenance_witness :
  let poly := mkPolygon
    [pt (-10) (-10); pt 10 (-10); pt 10 10; pt 6 8; pt 3 4;
     clamp ExactMath origin (Qc_of_Z 10) (pt (-5) 10); pt (-1) 2;
     pt (-10) 10] in
  (calculate ExactMath pillars origin (Qc_of_Z 10) (square 10)).2 = Ok poly
  /\ obs_segs pillars = []
  /\ forall x, x ∈ points poly ->
       let candidate := fun c : Vector Qc =>
         c ∈ points (square 10)
         \/ (c ∈ obs_points pillars
             /\ nle (get_length_squared (vsub origin c))
                    (radius_squared (Qc_of_Z 10)) = true)
         \/ (exists edges,
               boundary_edges (square 10) = Ok edges
               /\ c ∈ intersect_linesegs_linesegs ExactMath [] edges) in
       candidate x
       \/ exists c, candidate c
            /\ sweep_hit ExactMath origin (Qc_of_Z 10) (square 10) [] c
               = Some x.
Proof.
  cbv zeta.
  match goal with |- ?S /\ _ => assert (Hr : S) by by_evaluation end.
  split; [exact Hr|].
  exact (@calculate_vertices_provenance Qc _ Qc_PyNumOrder ExactMath
           pillars origin (Qc_of_Z 10) (square 10) _
           (ExactMath_sort_keeps origin) Hr).
Defined.

(** The two pillars, in closed form. *)
Lemma calculate_without_segments_witness :
  let edges := [(pt 10 10, pt (-10) 10); (pt (-10) 10, pt (-10) (-10));
                (pt (-10) (-10), pt 10 (-10)); (pt 10 (-10), pt 10 10)] in
  let sorted :=
    sort_around ExactMath origin
      (direct_visible ExactMath pillars origin (Qc_of_Z 10) (square 10) []
       ++ intersect_linesegs_linesegs ExactMath [] edges) in
  let swept :=
    sorted ≫= (fun c => option_list (sweep_hit ExactMath origin (Qc_of_Z 10)
                                       (square 10) [] c) ++ [c]) in
  boundary_edges (square 10) = Ok edges
  /\ sorted = [pt (-10) (-10); pt 10 (-10); pt 10 10; pt 3 4; pt (-1) 2;
               pt (-10) 10]
  /\ (calculate ExactMath pillars origin (Qc_of_Z 10) (square 10)).2
     = if decide (length swept < 2)%nat then Raise IndexError
       else Ok (mkPolygon swept).
Proof.
  cbv zeta.
  match goal with
  | |- ?E /\ ?S /\ _ =>
      assert (He : E) by by_evaluation; assert (Hs : S) by by_evaluation
  end.
  split; [exact He|]. split; [exact Hs|].
  exact (calculate_without_segments ExactMath pillars origin
           (Qc_of_Z 10) (square 10) _ eq_refl He).
Defined.

(** The four edges of the square. *)
Lemma boundary_edges_cycle_witness :
  points (square 5) <> []
  /\ exists edges,
       boundary_edges (square 5) = Ok edges
       /\ length edges = length (points (square 5))
       /\ forall (i : nat) a b,
            edges !! i = Some (a, b)
            <-> points (square 5) !! i = Some a
                /\ points (square 5)
                     !! (S i `mod` length (points (square 5)))%nat
                   = Some b.
Proof.
  assert (Hb : points (square 5) <> []) by discriminate.
  split; [exact Hb|].
  exact (boundary_edges_cycle (square 5) Hb).
Defined.

(** The wall to the right is in obs, in both directions. *)
Lemma obstructor_segment_in_obs_witness :
  (pt 2 (-1), pt 2 1) ∈ obs_segs wall_right
  /\ segment_in_obs wall_right (pt 2 (-1), pt 2 1) = true
  /\ segment_in_obs wall_right (pt 2 1, pt 2 (-1)) = true
  /\ segment_in_obs wall_right (pt 2 (-1), pt 2 (-1)) = true
  /\ segment_in_obs wall_right (pt 2 1, pt 2 1) = true.
Proof.
  assert (Hseg : (pt 2 (-1), pt 2 1) ∈ obs_segs wall_right) by by_evaluation.
  split; [exact Hseg|].
  exact (@obstructor_segment_in_obs Qc _ Qc_PyNumOrder Qc_PyNumRing
           Qc_PyNumTotal wall_right (pt 2 (-1), pt 2 1) Hseg).
Defined.

(** Three points at the squared distances 25, 4 and 4 from the origin. *)
Lemma closest_points_sorted_witness :
  let pts := [pt 3 4; pt 0 2; pt 2 0] in
  let distance p := get_length_squared (vsub p origin) in
  closest_points pts origin ≡ₚ pts
  /\ StronglySorted (fun p q => nle (distance p) (distance q) = true)
       (closest_points pts origin)
  /\ forall nearest, head (closest_points pts origin) = Some nearest ->
       exists before after,
         pts = before ++ nearest :: after
         /\ (forall q, q ∈ before ->
               nlt (distance nearest) (distance q) = true)
         /\ (forall q, q ∈ after ->
               nle (distance nearest) (distance q) = true).
Proof.
  exact (@closest_points_sorted Qc _ Qc_PyNumOrder Qc_PyNumTotal
           [pt 3 4; pt 0 2; pt 2 0] origin).
Defined.

(** An object after a change of obstructors and a call of [get_vision]. *)
Lemma reachable_cache_consistent_witness :
  let self :=
    (get_vision ExactMath
       (set_obstructors (Vision_init []) [[pt 3 4]; [pt (-1) 2]])
       origin (Qc_of_Z 10) (square 10)).1 in
  reachable ExactMath self
  /\ is_Some (cached_vision self)
  /\ (is_Some (cached_vision self) ->
      is_Some (cached_position self) /\ is_Some (cached_radius self))
  /\ forall eye radius boundary e,
       (get_vision ExactMath self eye radius boundary).2 = Raise e ->
       (e = NameError /\ obs_segs self <> [])
       \/ (e = IndexError /\ obs_segs self = []).
Proof.
  cbv zeta.
  match goal with
  | |- ?R /\ _ =>
      assert (Hreach : R)
        by apply reachable_get_vision, reachable_set_obstructors,
                 reachable_init
  end.
  split; [exact Hreach|]. split; [by_evaluation|].
  exact (reachable_cache_consistent ExactMath _ Hreach).
Defined.

(** The square without obstructors, asked for twice. *)
Lemma get_vision_twice_witness :
  let poly := mkPolygon [pt (-5) (-5); pt 5 (-5); pt 5 5; pt (-5) 5] in
  let first := get_vision ExactMath no_obstructors origin (Qc_of_Z 10)
                 (square 5) in
  first.2 = Ok (Some poly)
  /\ exists poly',
       Some poly = Some poly'
       /\ forall radius' boundary',
            get_vision ExactMath first.1 origin radius' boundary'
            = (first.1, Ok (Some poly')).
Proof.
  cbv zeta.
  match goal with |- ?S /\ _ => assert (Hr : S) by by_evaluation end.
  split; [exact Hr|].
  exact (@get_vision_twice Qc _ Qc_PyNumOrder Qc_PyNumRing ExactMath
           no_obstructors origin (Qc_of_Z 10) (square 5) _ Hr).
Defined.

(** After the square has been computed from the origin, a call from
    [(50, 0)] with a boundary without points raises, and the next call from
    [(50, 0)] returns the polygon computed from the origin. *)
Lemma failed_get_vision_leaves_stale_polygon_witness :
  let old := mkPolygon [pt (-5) (-5); pt 5 (-5); pt 5 5; pt (-5) 5] in
  let self :=
    (calculate ExactMath no_obstructors origin (Qc_of_Z 10) (square 5)).1 in
  let failed := get_vision ExactMath self (pt 50 0) (Qc_of_Z 10)
                  (mkPolygon []) in
  cached_vision self = Some old
  /\ failed.2 = Raise IndexError
  /\ forall radius' boundary',
       get_vision ExactMath failed.1 (pt 50 0) radius' boundary'
       = (failed.1, Ok (Some old)).
Proof.
  cbv zeta.
  match goal with
  | |- ?C /\ ?F /\ _ =>
      assert (Hc : C) by by_evaluation; assert (Hf : F) by by_evaluation
  end.
  split; [exact Hc|]. split; [exact Hf|].
  exact (@failed_get_vision_leaves_stale_polygon Qc _ Qc_PyNumOrder
           Qc_PyNumRing ExactMath _ (pt 50 0) (Qc_of_Z 10) (mkPolygon []) _
           Hc Hf).
Defined.
